(** * FixBot: the three CI helper scripts under [.github/scripts]

    A shallow embedding of [fixbot_generate_patch.py], [fixbot_comment.py]
    and [fixbot_fetch_logs.py], with the properties of their specification.

    Conventions.
    - Python [str] values are [string]s; a character is a code point below
      256, so the tables of [str.lower], [str.isspace] and [str.splitlines]
      are the ones Python uses on that range.
    - A Python [set] of strings is a [gset string], a [dict] keyed by paths or
      variable names is a [gmap string _]; JSON objects keep their key order
      and are association lists.
    - The file system is a finite map from path to what the path holds: a
      regular file with its text, or a directory.  A path is its string.  The
      process may read, write and remove every regular file and create a
      file at every free path; on a directory [open] and [os.remove] raise.
    - An uncaught exception ends the process with exit status 1. *)

From Stdlib Require Import Ascii String.
From stdpp Require Import base numbers option list sorting gmap strings pretty.

Set Warnings "-clear-no-such-hyp".

(** ** Python built-ins used by the scripts *)

Module Py.

Definition ord (c : ascii) : N := N_of_ascii c.
Definition chr (n : N) : ascii := ascii_of_N n.

Definition between (lo hi : N) (c : ascii) : bool :=
  ((lo <=? ord c)%N && (ord c <=? hi)%N)%bool.

Fixpoint str_map (f : ascii → ascii) (s : string) : string :=
  match s with
  | EmptyString => EmptyString
  | String c s' => String (f c) (str_map f s')
  end.

Fixpoint str_forallb (f : ascii → bool) (s : string) : bool :=
  match s with
  | EmptyString => true
  | String c s' => f c && str_forallb f s'
  end.

(** [str.lower], one character: A-Z, and the upper-case letters of the
    Latin-1 block (0xC0-0xDE without the multiplication sign 0xD7). *)
Definition lower_char (c : ascii) : ascii :=
  if between 65 90 c then chr (ord c + 32)
  else if between 192 222 c && negb (ord c =? 215)%N then chr (ord c + 32)
  else c.

Definition lower (s : string) : string := str_map lower_char s.

(** [str.isspace] on one character. *)
Definition isspace (c : ascii) : bool :=
  between 9 13 c || between 28 32 c || (ord c =? 133)%N || (ord c =? 160)%N.

Fixpoint lstrip_by (f : ascii → bool) (s : string) : string :=
  match s with
  | EmptyString => EmptyString
  | String c s' => if f c then lstrip_by f s' else s
  end.

Fixpoint rstrip_by (f : ascii → bool) (s : string) : string :=
  match s with
  | EmptyString => EmptyString
  | String c s' =>
      match rstrip_by f s' with
      | EmptyString => if f c then EmptyString else String c EmptyString
      | r => String c r
      end
  end.

(** [s.strip()] *)
Definition strip (s : string) : string := rstrip_by isspace (lstrip_by isspace s).

(** [s.rstrip("\n")] *)
Definition rstrip_nl (s : string) : string :=
  rstrip_by (λ c, (ord c =? 10)%N) s.

(** The line boundaries of [str.splitlines]. *)
Definition is_linebreak (c : ascii) : bool :=
  between 10 13 c || between 28 30 c || (ord c =? 133)%N.

(** [s.splitlines()]: a carriage return followed by a line feed is one
    boundary, and a final boundary opens no empty last line. *)
Fixpoint splitlines (s : string) : list string :=
  match s with
  | EmptyString => []
  | String c s' =>
      if is_linebreak c then
        match s' with
        | String c' s'' =>
            if ((ord c =? 13)%N && (ord c' =? 10)%N)%bool
            then EmptyString :: splitlines s''
            else EmptyString :: splitlines s'
        | EmptyString => [EmptyString]
        end
      else
        match splitlines s' with
        | [] => [String c EmptyString]
        | l :: ls => String c l :: ls
        end
  end.

(** [sep.join(l)] *)
Fixpoint join (sep : string) (l : list string) : string :=
  match l with
  | [] => EmptyString
  | [x] => x
  | x :: rest => x +:+ sep +:+ join sep rest
  end.

(** [s[:n]] *)
Fixpoint take_chars (n : nat) (s : string) : string :=
  match n, s with
  | S n', String c s' => String c (take_chars n' s')
  | _, _ => EmptyString
  end.

(** [s[n:]] *)
Fixpoint drop_chars (n : nat) (s : string) : string :=
  match n, s with
  | S n', String _ s' => drop_chars n' s'
  | _, _ => s
  end.

(** [s.startswith(p)], returning what follows the prefix. *)
Fixpoint strip_prefix (p s : string) : option string :=
  match p, s with
  | EmptyString, _ => Some s
  | String a p', String b s' => if decide (a = b) then strip_prefix p' s' else None
  | String _ _, EmptyString => None
  end.

Definition startswith (s p : string) : bool := bool_decide (is_Some (strip_prefix p s)).

Fixpoint endswith_char (s : string) (c : ascii) : bool :=
  match s with
  | EmptyString => false
  | String a EmptyString => bool_decide (a = c)
  | String _ s' => endswith_char s' c
  end.

(** Truth value of an optional string: [None] and [""] are false. *)
Definition truthy (v : option string) : bool :=
  match v with
  | Some s => negb (bool_decide (s = EmptyString))
  | None => false
  end.

(** [a or b] on optional strings. *)
Definition or_ (a b : option string) : option string :=
  if truthy a then a else b.

(** [sorted(s)] for a set of strings: code point order. *)
Definition sorted (s : gset string) : list string :=
  merge_sort String.le (elements s).

(** Universal newlines, applied by [open(path, "r")] to what it reads. *)
Fixpoint universal_newlines (s : string) : string :=
  match s with
  | EmptyString => EmptyString
  | String c s' =>
      if (ord c =? 13)%N then
        match s' with
        | String c' s'' =>
            if (ord c' =? 10)%N then String (chr 10) (universal_newlines s'')
            else String (chr 10) (universal_newlines s')
        | EmptyString => String (chr 10) EmptyString
        end
      else String c (universal_newlines s')
  end.

End Py.

(** ** The fragment of [re] the patterns of the generator are written in *)

Module Re.

(** A pattern is a sequence of items: literal text, a greedy [[...]+] over
    a character class, and the two ends of the capture group. *)
Inductive item :=
| Lit (s : string)
| Plus (cls : ascii → bool)
| GroupOpen
| GroupClose.

(** Length of the longest prefix of [s] inside the class. *)
Fixpoint run_length (cls : ascii → bool) (s : string) : nat :=
  match s with
  | String c s' => if cls c then S (run_length cls s') else 0
  | EmptyString => 0
  end.

(** Backtracking over a greedy repetition: the longest length first, down
    to one character. *)
Fixpoint try_lengths {A} (n : nat) (k : nat → option A) : option A :=
  match n with
  | 0 => None
  | S n' => match k n with Some r => Some r | None => try_lengths n' k end
  end.

(** [match_items p s pos gs ge]: match [p] against [s], [pos] characters
    into the match; the result is the group's start and end offsets and the
    length of the whole match. *)
Fixpoint match_items (p : list item) (s : string) (pos gs ge : nat)
  : option (nat * nat * nat) :=
  match p with
  | [] => Some (gs, ge, pos)
  | Lit l :: p' =>
      match Py.strip_prefix l s with
      | Some s' => match_items p' s' (pos + String.length l) gs ge
      | None => None
      end
  | Plus cls :: p' =>
      try_lengths (run_length cls s)
        (λ k, match_items p' (Py.drop_chars k s) (pos + k) gs ge)
  | GroupOpen :: p' => match_items p' s pos pos ge
  | GroupClose :: p' => match_items p' s pos gs pos
  end.

(** A match of [p] at the start of [s]: the captured text and the length
    of the match. *)
Definition match_here (p : list item) (s : string) : option (string * nat) :=
  match match_items p s 0 0 0 with
  | Some (gs, ge, len) => Some (Py.take_chars (ge - gs) (Py.drop_chars gs s), len)
  | None => None
  end.

(** [re.findall(p, s)] for a pattern with one group: the captures of the
    non-overlapping matches, left to right.  [skip] counts the characters
    of the last match still to step over. *)
Fixpoint findall_from (p : list item) (skip : nat) (s : string) : list string :=
  match skip with
  | S k =>
      match s with
      | EmptyString => []
      | String _ s' => findall_from p k s'
      end
  | 0 =>
      match match_here p s with
      | Some (cap, len) =>
          cap :: match s with
                 | EmptyString => []
                 | String _ s' => findall_from p (len - 1) s'
                 end
      | None =>
          match s with
          | EmptyString => []
          | String _ s' => findall_from p 0 s'
          end
      end
  end.

Definition findall (p : list item) (s : string) : list string :=
  findall_from p 0 s.

End Re.

(** ** [difflib]: the sequence matcher and [unified_diff]

    [SequenceMatcher(None, a, b)] as [unified_diff] builds it: no junk
    predicate, so the set of junk elements is empty and the two loops that
    extend a match over junk never run; [autojunk] is on. *)

Module Difflib.

Inductive tag := Replace | Delete | Insert | Equal.

#[global] Instance tag_eq_dec : EqDecision tag.
Proof. solve_decision. Defined.

(** Tuples are compared component by component, as [list.sort] does. *)
Definition block_le (x y : nat * nat * nat) : Prop :=
  let '(i1, j1, k1) := x in
  let '(i2, j2, k2) := y in
  i1 < i2 ∨ (i1 = i2 ∧ (j1 < j2 ∨ (j1 = j2 ∧ k1 ≤ k2))).

#[global] Instance block_le_dec : RelDecision block_le.
Proof. intros [[i1 j1] k1] [[i2 j2] k2]. unfold block_le. apply _. Defined.

Section SequenceMatcher.
Variables a b : list string.

(** [__chain_b]: for each element of [b] the ascending list of its
    positions; with 200 elements or more, the elements that occur more
    than [n // 100 + 1] times are removed. *)
Definition chain_b : gmap string (list nat) :=
  let b2j :=
    foldl (λ (m : gmap string (list nat)) '(i, elt),
             <[elt := default [] (m !! elt) ++ [i]]> m)
          ∅ (imap pair b) in
  let n := length b in
  if decide (200 ≤ n) then
    let ntest := n `div` 100 + 1 in
    filter (λ '(_, idxs), ¬ (ntest < length idxs)) b2j
  else b2j.

(** [j2len.get(j-1, 0)] *)
Definition j2lenget_pred (j2len : gmap nat nat) (j : nat) : nat :=
  match j with
  | 0 => 0
  | S j' => default 0 (j2len !! j')
  end.

(** The loop over [b2j.get(a[i], nothing)] inside [find_longest_match].
    [i-k+1] is written [i+1-k]: [k] never exceeds [i+1]. *)
Fixpoint inner_loop (i blo bhi : nat) (j2len : gmap nat nat) (js : list nat)
    (best : nat * nat * nat) (newj2len : gmap nat nat)
  : (nat * nat * nat) * gmap nat nat :=
  match js with
  | [] => (best, newj2len)
  | j :: js' =>
      if decide (j < blo) then inner_loop i blo bhi j2len js' best newj2len
      else if decide (bhi ≤ j) then (best, newj2len)
      else
        let k := j2lenget_pred j2len j + 1 in
        let newj2len := <[j := k]> newj2len in
        let best := if decide (best.2 < k) then (i + 1 - k, j + 1 - k, k) else best in
        inner_loop i blo bhi j2len js' best newj2len
  end.

Definition elt_eq (i j : nat) : bool :=
  match a !! i, b !! j with
  | Some x, Some y => bool_decide (x = y)
  | _, _ => false
  end.

(** First [while] loop after the scan: extend the match to the left. *)
Fixpoint extend_left (fuel alo blo : nat) (best : nat * nat * nat) : nat * nat * nat :=
  let '(besti, bestj, bestsize) := best in
  match fuel with
  | 0 => best
  | S fuel' =>
      if bool_decide (alo < besti) && bool_decide (blo < bestj) && elt_eq (besti - 1) (bestj - 1)
      then extend_left fuel' alo blo (besti - 1, bestj - 1, bestsize + 1)
      else best
  end.

(** Second [while] loop: extend the match to the right. *)
Fixpoint extend_right (fuel ahi bhi : nat) (best : nat * nat * nat) : nat * nat * nat :=
  let '(besti, bestj, bestsize) := best in
  match fuel with
  | 0 => best
  | S fuel' =>
      if bool_decide (besti + bestsize < ahi) && bool_decide (bestj + bestsize < bhi)
         && elt_eq (besti + bestsize) (bestj + bestsize)
      then extend_right fuel' ahi bhi (besti, bestj, bestsize + 1)
      else best
  end.

(** [find_longest_match(alo, ahi, blo, bhi)].  Each turn of the first
    extension loop lowers [besti] and each turn of the second raises
    [besti + bestsize], which bounds them by [besti] and [ahi]. *)
Definition find_longest_match (alo ahi blo bhi : nat) : nat * nat * nat :=
  let b2j := chain_b in
  let scan :=
    foldl (λ '(best, j2len) i,
             let js := from_option (λ x, default [] (b2j !! x)) [] (a !! i) in
             inner_loop i blo bhi j2len js best ∅)
          ((alo, blo, 0), ∅) (seq alo (ahi - alo)) in
  let best := scan.1 in
  let best := extend_left best.1.1 alo blo best in
  extend_right ahi ahi bhi best.

(** The [while queue:] loop of [get_matching_blocks].  The head of
    [queue] is the end of the Python list: [pop] takes it and [append]
    puts a new one there. *)
Fixpoint matching_loop (fuel : nat) (queue : list (nat * nat * nat * nat))
    (matching_blocks : list (nat * nat * nat)) : list (nat * nat * nat) :=
  match fuel, queue with
  | S fuel', (alo, ahi, blo, bhi) :: queue =>
      let '(i, j, k) := find_longest_match alo ahi blo bhi in
      if decide (k = 0) then matching_loop fuel' queue matching_blocks
      else
        let queue := if decide (alo < i ∧ blo < j)
                     then (alo, i, blo, j) :: queue else queue in
        let queue := if decide (i + k < ahi ∧ j + k < bhi)
                     then (i + k, ahi, j + k, bhi) :: queue else queue in
        matching_loop fuel' queue (matching_blocks ++ [(i, j, k)])
  | _, _ => matching_blocks
  end.

(** The loop that merges adjacent blocks; its state is the block
    [(i1, j1, k1)] being grown and the blocks already emitted. *)
Definition collapse_step (st : (nat * nat * nat) * list (nat * nat * nat))
    (x : nat * nat * nat) : (nat * nat * nat) * list (nat * nat * nat) :=
  let '((i1, j1, k1), non_adjacent) := st in
  let '(i2, j2, k2) := x in
  if decide (i1 + k1 = i2 ∧ j1 + k1 = j2) then ((i1, j1, k1 + k2), non_adjacent)
  else ((i2, j2, k2),
        if decide (k1 = 0) then non_adjacent else non_adjacent ++ [(i1, j1, k1)]).

(** [get_matching_blocks()].  A block that is found takes at least one
    element of [a] out of play and leaves at most two ranges behind, so
    the queue is popped at most [2 * len(a) + 1] times. *)
Definition get_matching_blocks : list (nat * nat * nat) :=
  let la := length a in
  let lb := length b in
  let matching_blocks := matching_loop (2 * la + 1) [(0, la, 0, lb)] [] in
  let matching_blocks := merge_sort block_le matching_blocks in
  let '((i1, j1, k1), non_adjacent) :=
    foldl collapse_step ((0, 0, 0), []) matching_blocks in
  let non_adjacent :=
    if decide (k1 = 0) then non_adjacent else non_adjacent ++ [(i1, j1, k1)] in
  non_adjacent ++ [(la, lb, 0)].

Definition opcode : Type := tag * nat * nat * nat * nat.

(** [get_opcodes()] *)
Definition get_opcodes : list opcode :=
  (foldl (λ '(i, j, answer) '(ai, bj, size),
            let answer :=
              if decide (i < ai ∧ j < bj) then answer ++ [(Replace, i, ai, j, bj)]
              else if decide (i < ai) then answer ++ [(Delete, i, ai, j, bj)]
              else if decide (j < bj) then answer ++ [(Insert, i, ai, j, bj)]
              else answer in
            let '(i, j) := (ai + size, bj + size) in
            let answer :=
              if decide (size = 0) then answer else answer ++ [(Equal, ai, i, bj, j)] in
            (i, j, answer))
         (0, 0, []) get_matching_blocks).2.

Definition fix_first (n : nat) (codes : list opcode) : list opcode :=
  match codes with
  | (Equal, i1, i2, j1, j2) :: rest =>
      (Equal, i1 `max` (i2 - n), i2, j1 `max` (j2 - n), j2) :: rest
  | _ => codes
  end.

Fixpoint fix_last (n : nat) (codes : list opcode) : list opcode :=
  match codes with
  | [] => []
  | [(Equal, i1, i2, j1, j2)] =>
      [(Equal, i1, i2 `min` (i1 + n), j1, j2 `min` (j1 + n))]
  | c :: rest => c :: fix_last n rest
  end.

(** [get_grouped_opcodes(n)], as the list of the groups it yields. *)
Definition get_grouped_opcodes (n : nat) : list (list opcode) :=
  let codes := get_opcodes in
  let codes := match codes with [] => [(Equal, 0, 1, 0, 1)] | _ => codes end in
  let codes := fix_last n (fix_first n codes) in
  let nn := n + n in
  let '(groups, group) :=
    foldl (λ '(groups, group) '(tg, i1, i2, j1, j2),
             if decide (tg = Equal ∧ nn < i2 - i1) then
               let group := group ++ [(tg, i1, i2 `min` (i1 + n), j1, j2 `min` (j1 + n))] in
               (groups ++ [group],
                [(tg, i1 `max` (i2 - n), i2, j1 `max` (j2 - n), j2)])
             else (groups, group ++ [(tg, i1, i2, j1, j2)]))
          ([], []) codes in
  match group with
  | [] => groups
  | [(Equal, _, _, _, _)] => groups
  | _ => groups ++ [group]
  end.

(** [_format_range_unified(start, stop)] *)
Definition format_range_unified (start stop : nat) : string :=
  let beginning := start + 1 in
  let length := stop - start in
  if decide (length = 1) then pretty beginning
  else
    let beginning := if decide (length = 0) then beginning - 1 else beginning in
    pretty beginning +:+ "," +:+ pretty length.

(** [seq[i1:i2]] *)
Definition slice (l : list string) (i1 i2 : nat) : list string :=
  take (i2 - i1) (drop i1 l).

Definition group_lines (group : list opcode) : list string :=
  let first := default (Equal, 0, 0, 0, 0) (head group) in
  let last := default (Equal, 0, 0, 0, 0) (last group) in
  let file1_range := format_range_unified first.1.1.1.2 last.1.1.2 in
  let file2_range := format_range_unified first.1.2 last.2 in
  ("@@ -" +:+ file1_range +:+ " +" +:+ file2_range +:+ " @@")
  :: concat (map (λ '(tg, i1, i2, j1, j2),
                    match tg with
                    | Equal => map (String.append " ") (slice a i1 i2)
                    | Replace => map (String.append "-") (slice a i1 i2)
                                 ++ map (String.append "+") (slice b j1 j2)
                    | Delete => map (String.append "-") (slice a i1 i2)
                    | Insert => map (String.append "+") (slice b j1 j2)
                    end) group).

(** [unified_diff(a, b, fromfile=..., tofile=..., lineterm="")] with no
    file dates and three lines of context, as the list it yields. *)
Definition unified_diff (fromfile tofile : string) : list string :=
  match get_grouped_opcodes 3 with
  | [] => []
  | groups =>
      ("--- " +:+ fromfile) :: ("+++ " +:+ tofile)
      :: concat (map group_lines groups)
  end.

End SequenceMatcher.

End Difflib.

(** Quantities the analysis of [find_longest_match] speaks about. *)

Module Matcher.

(** The positions of [x] in [b], counted from [n], in ascending order. *)
Fixpoint positions_from (n : nat) (x : string) (b : list string) : list nat :=
  match b with
  | [] => []
  | y :: b' =>
      if decide (y = x) then n :: positions_from (S n) x b'
      else positions_from (S n) x b'
  end.

(** [b2j.get(x, [])] *)
Definition entries (b : list string) (x : string) : list nat :=
  default [] (Difflib.chain_b b !! x).

(** The number of elements of [a] right before position [i], one after
    the other, that [b2j] has entries for. *)
Fixpoint run_before (a b : list string) (i : nat) : nat :=
  match i with
  | 0 => 0
  | S i' =>
      match a !! i' with
      | Some x => if decide (entries b x = []) then 0 else run_before a b i' + 1
      | None => 0
      end
  end.

(** [j2len.get(j, 0)] *)
Definition getv (m : gmap nat nat) (j : nat) : nat := default 0 (m !! j).

(** One turn of the loop over [i] in [find_longest_match], on the state
    made of the best block and [j2len]. *)
Definition scan_row (a b : list string) (st : (nat * nat * nat) * gmap nat nat)
  : nat → (nat * nat * nat) * gmap nat nat :=
  let '(best, j2len) := st in
  λ i, let js := from_option (λ x, default [] (Difflib.chain_b b !! x)) [] (a !! i) in
       Difflib.inner_loop i 0 (length b) j2len js best ∅.

(** What holds of that state after [i] turns when [a] is a prefix of [b]:
    the best block lies on the diagonal. *)
Definition scan_inv (a b : list string) (i : nat)
    (st : (nat * nat * nat) * gmap nat nat) : Prop :=
  st.1.1.1 = st.1.1.2
  ∧ st.1.1.1 + st.1.2 ≤ i
  ∧ (∀ i', i' ≤ i → run_before a b i' ≤ st.1.2)
  ∧ Difflib.j2lenget_pred st.2 i = run_before a b i
  ∧ (∀ j, getv st.2 j ≤ run_before a b i)
  ∧ (∀ j, j ≤ i → Difflib.j2lenget_pred st.2 j ≤ run_before a b j).

End Matcher.

(** ** [os] and files *)

Module Os.

(** What a path holds: a regular file with its text, or a directory. *)
Inductive node :=
| File (content : string)
| Dir.

#[global] Instance node_eq_dec : EqDecision node.
Proof. solve_decision. Defined.

(** [os.path.join(a, b)] on a POSIX system. *)
Definition path_join (a b : string) : string :=
  if Py.startswith b "/" then b
  else if bool_decide (a = "") || Py.endswith_char a "/" then a +:+ b
  else a +:+ "/" +:+ b.

(** [os.path.exists(p)]: true of a file and of a directory. *)
Definition path_exists (fs : gmap string node) (p : string) : bool :=
  bool_decide (is_Some (fs !! p)).

(** [open(p, "r").read()]; [None] when [open] raises: [FileNotFoundError]
    with nothing at [p], [IsADirectoryError] on a directory. *)
Definition read_text (fs : gmap string node) (p : string) : option string :=
  match fs !! p with
  | Some (File s) => Some (Py.universal_newlines s)
  | Some Dir | None => None
  end.

(** [open(p, "w").write(s)]: the files afterwards, [None] when [open]
    raises, on a directory. *)
Definition write_text (fs : gmap string node) (p s : string)
  : option (gmap string node) :=
  match fs !! p with
  | Some Dir => None
  | Some (File _) | None => Some (<[p := File s]> fs)
  end.

(** [open(p, "a").write(s)]: the file is created when it is missing;
    [None] when [open] raises, on a directory. *)
Definition append_text (fs : gmap string node) (p s : string)
  : option (gmap string node) :=
  match fs !! p with
  | Some Dir => None
  | Some (File old) => Some (<[p := File (old +:+ s)]> fs)
  | None => Some (<[p := File s]> fs)
  end.

(** [os.remove(p)]; [None] when it raises: with nothing at [p], and on a
    directory. *)
Definition remove (fs : gmap string node) (p : string) : option (gmap string node) :=
  match fs !! p with
  | Some (File _) => Some (delete p fs)
  | Some Dir | None => None
  end.

End Os.

(** ** [fixbot_generate_patch.py] *)

Module GeneratePatch.

Definition nl : string := String (Py.chr 10) "".

(** [[A-Za-z0-9_]] *)
Definition word_class (c : ascii) : bool :=
  Py.between 65 90 c || Py.between 97 122 c || Py.between 48 57 c
  || bool_decide (c = "_"%char).

(** [[A-Za-z0-9_\-\.]] *)
Definition dist_class (c : ascii) : bool :=
  word_class c || bool_decide (c = "-"%char) || bool_decide (c = "."%char).

(** [[A-Za-z0-9_\-\/]] *)
Definition header_class (c : ascii) : bool :=
  word_class c || bool_decide (c = "-"%char) || bool_decide (c = "/"%char).

(** [r"ModuleNotFoundError: No module named '([A-Za-z0-9_]+)'"] *)
Definition module_not_found_re : list Re.item :=
  [Re.Lit "ModuleNotFoundError: No module named '";
   Re.GroupOpen; Re.Plus word_class; Re.GroupClose; Re.Lit "'"].

(** [r"ImportError: No module named ([A-Za-z0-9_]+)"] *)
Definition import_error_re : list Re.item :=
  [Re.Lit "ImportError: No module named ";
   Re.GroupOpen; Re.Plus word_class; Re.GroupClose].

(** [r"No matching distribution found for ([A-Za-z0-9_\-\.]+)"] *)
Definition no_distribution_re : list Re.item :=
  [Re.Lit "No matching distribution found for ";
   Re.GroupOpen; Re.Plus dist_class; Re.GroupClose].

(** [r"fatal error: ([A-Za-z0-9_\-\/]+\.h): No such file or directory"] *)
Definition missing_header_re : list Re.item :=
  [Re.Lit "fatal error: ";
   Re.GroupOpen; Re.Plus header_class; Re.Lit ".h"; Re.GroupClose;
   Re.Lit ": No such file or directory"].

(** [make_new_file_diff(path, relpath, new_lines)] *)
Definition make_new_file_diff (path : option string) (relpath : string)
    (new_lines : list string) : string :=
  let header := ["--- /dev/null"; "+++ b/" +:+ relpath;
                 "@@ -0,0 +1," +:+ pretty (length new_lines) +:+ " @@"] in
  let body := map (λ line, "+" +:+ Py.rstrip_nl line) new_lines in
  Py.join nl (header ++ body) +:+ nl.

(** [make_update_file_diff(path, relpath, old_lines, new_lines)] *)
Definition make_update_file_diff (path relpath : string)
    (old_lines new_lines : list string) : string :=
  let ud := Difflib.unified_diff old_lines new_lines
              ("a/" +:+ relpath) ("b/" +:+ relpath) in
  Py.join nl ud +:+ nl.

(** [added] in [write_requirements_patch]: the missing modules that are no
    stripped line of the existing file. *)
Definition added (old missing_modules : list string) : list string :=
  filter (λ m, m ∉ map Py.strip old) missing_modules.

(** [write_requirements_patch(out_path, repo_root, missing_modules)]: the
    value returned and the files afterwards, [None] when one of its two
    [open] raises.  Both come before the only write, so no file has changed
    when it raises. *)
Definition write_requirements_patch (out_path repo_root : string)
    (missing_modules : list string) (fs : gmap string Os.node)
  : option (bool * gmap string Os.node) :=
  match missing_modules with
  | [] => Some (false, fs)
  | _ =>
      let req_path := Os.path_join repo_root "requirements.txt" in
      let rel := "requirements.txt" in
      if Os.path_exists fs req_path then
        text ← Os.read_text fs req_path;
        let old := Py.splitlines text in
        match added old missing_modules with
        | [] => Some (false, fs)
        | added =>
            let new := old ++ added in
            let diff := make_update_file_diff req_path rel old new in
            fs ← Os.append_text fs out_path diff;
            Some (true, fs)
        end
      else
        let new := missing_modules in
        let diff := make_new_file_diff (Some req_path) rel new in
        fs ← Os.append_text fs out_path diff;
        Some (true, fs)
  end.

(** [write_system_deps_patch(out_path, repo_root, missing_headers)]: the
    value returned and the files afterwards, [None] when [open] raises. *)
Definition write_system_deps_patch (out_path repo_root : string)
    (missing_headers : list string) (fs : gmap string Os.node)
  : option (bool * gmap string Os.node) :=
  match missing_headers with
  | [] => Some (false, fs)
  | _ =>
      let rel := ".fixbot_system_deps.txt" in
      let lines := "The following headers were reported missing during CI/compile:"
                   :: missing_headers in
      let diff := make_new_file_diff (Some (Os.path_join repo_root rel)) rel lines in
      fs ← Os.append_text fs out_path diff;
      Some (true, fs)
  end.

(** [missing] in [heuristics_make_patch]: the set the three loops fill. *)
Definition missing (logs : string) : gset string :=
  let add_all (caps : list string) (s : gset string) : gset string :=
    foldl (λ s m, s ∪ {[Py.lower m]}) s caps in
  add_all (Re.findall no_distribution_re logs)
    (add_all (Re.findall import_error_re logs)
       (add_all (Re.findall module_not_found_re logs) ∅)).

Definition missing_list (logs : string) : list string := Py.sorted (missing logs).

(** [missing_headers] in [heuristics_make_patch] *)
Definition missing_headers (logs : string) : list string :=
  foldl (λ missing_headers hdr,
           if decide (hdr ∈ missing_headers) then missing_headers
           else missing_headers ++ [hdr])
        [] (Re.findall missing_header_re logs).

Definition notice_lines : list string :=
  ["FixBot could not identify an automatic fix."; "See .fixbot_logs.txt for details."].

(** How a call ends: it returns or it raises, with the files as they are
    at that point. *)
Inductive ended :=
| Returned (fs : gmap string Os.node)
| Raised (fs : gmap string Os.node).

(** [heuristics_make_patch(logs_path, repo_root, out_path)] *)
Definition heuristics_make_patch (logs_path repo_root out_path : string)
    (fs : gmap string Os.node) : ended :=
  match Os.read_text fs logs_path with
  | None => Raised fs
  | Some logs =>
      let missing_list := missing_list logs in
      let missing_headers := missing_headers logs in
      match (if Os.path_exists fs out_path then Os.remove fs out_path else Some fs) with
      | None => Raised fs
      | Some fs =>
          let wrote_any := false in
          match write_requirements_patch out_path repo_root missing_list fs with
          | None => Raised fs
          | Some (w, fs) =>
              let wrote_any := w || wrote_any in
              match write_system_deps_patch out_path repo_root missing_headers fs with
              | None => Raised fs
              | Some (w, fs) =>
                  let wrote_any := w || wrote_any in
                  if wrote_any then Returned fs
                  else
                    let diff :=
                      make_new_file_diff None ".fixbot_notice.txt" notice_lines in
                    match Os.append_text fs out_path diff with
                    | None => Raised fs
                    | Some fs => Returned fs
                    end
              end
          end
      end
  end.

Record args := { logs : string; repo_root : string; out : string }.

Record outcome := {
  exit_code : nat;
  stdout : list string;
  files : gmap string Os.node
}.

Definition prompt (logs : string) : string :=
  "You are a tool that outputs a minimal unified-diff patch to fix CI failures. "
  +:+ "Output ONLY the patch." +:+ nl +:+ nl +:+ "Logs:" +:+ nl +:+ logs.

(** The [try] block of [main].  [completion prompt] is the text of the
    first choice the completion service returns, [None] when the [openai]
    package is missing or the call raises.  The result is the patch text
    written to [args.out] with the files afterwards; [None] when the block
    falls through: no key, an exception, which the block swallows, or an
    empty answer.  No file has changed then. *)
#[warnings="-abstract-large-number"]
Definition openai_patch (openai_key : option string)
    (completion : string → option string) (a : args) (fs : gmap string Os.node)
  : option (string * gmap string Os.node) :=
  if Py.truthy openai_key then
    match Os.read_text fs (logs a) with
    | Some text =>
        let logs := Py.take_chars 8192 text in
        match completion (prompt logs) with
        | Some text =>
            let patch_text := Py.strip text in
            if Py.truthy (Some patch_text) then
              fs ← Os.write_text fs (out a) patch_text;
              Some (patch_text, fs)
            else None
        | None => None
        end
    | None => None
    end
  else None.

(** [main()], from the parsed arguments, [OPENAI_API_KEY] and the files. *)
Definition main (openai_key : option string) (completion : string → option string)
    (a : args) (fs : gmap string Os.node) : outcome :=
  match openai_patch openai_key completion a fs with
  | Some (patch_text, fs') =>
      {| exit_code := 0;
         stdout := ["Wrote patch from OpenAI to " +:+ out a];
         files := fs' |}
  | None =>
      match heuristics_make_patch (logs a) (repo_root a) (out a) fs with
      | Returned fs' =>
          {| exit_code := 0;
             stdout := ["Wrote heuristic patch to " +:+ out a];
             files := fs' |}
      | Raised fs' => {| exit_code := 1; stdout := []; files := fs' |}
      end
  end.

End GeneratePatch.

(** ** JSON values and the HTTP exchange of [requests] *)

Module Json.

(** What [json] parses to: [Null] is [None], [Obj] is a [dict] in
    insertion order. *)
#[warnings="-register-all"]
Inductive value :=
| Null
| Bool (b : bool)
| Num (n : Z)
| Str (s : string)
| Arr (l : list value)
| Obj (kvs : list (string * value)).

Definition is_dict (v : value) : bool :=
  match v with Obj _ => true | _ => false end.

Fixpoint lookup_key (kvs : list (string * value)) (k : string) : option value :=
  match kvs with
  | [] => None
  | (k', v) :: rest => if decide (k' = k) then Some v else lookup_key rest k
  end.

(** [v.get(k)]: only a [dict] has the method, [None] stands for
    [AttributeError]. *)
Definition get (v : value) (k : string) : option value :=
  match v with
  | Obj kvs => Some (default Null (lookup_key kvs k))
  | _ => None
  end.

Definition keys (kvs : list (string * value)) : list string := map fst kvs.

Fixpoint chars (s : string) : list value :=
  match s with
  | EmptyString => []
  | String c s' => Str (String c "") :: chars s'
  end.

(** [for x in v]: what the loop visits, [None] stands for [TypeError]. *)
Definition iterate (v : value) : option (list value) :=
  match v with
  | Arr l => Some l
  | Obj kvs => Some (map Str (keys kvs))
  | Str s => Some (chars s)
  | _ => None
  end.

End Json.

Module Http.

Record request := {
  method : string;
  url : string;
  headers : list (string * string);
  payload : option Json.value
}.

(** [json] is what [r.json()] returns, [None] when it raises. *)
Record response := {
  status_code : nat;
  text : string;
  json : option Json.value
}.

Definition github_headers (token : string) : list (string * string) :=
  [("Authorization", "token " +:+ token); ("Accept", "application/vnd.github.v3+json")].

End Http.

(** ** [fixbot_comment.py] *)

Module Comment.

Record args := {
  repo : string;
  pr : string;
  message : string;
  token_arg : option string
}.

Record outcome := {
  exit_code : nat;
  stdout : list (list Json.value);
  stderr : list string;
  requests : list Http.request
}.

(** [args.token or os.environ.get("GH_TOKEN") or os.environ.get("GITHUB_TOKEN")] *)
Definition token (a : args) (environ : gmap string string) : option string :=
  Py.or_ (Py.or_ (token_arg a) (environ !! "GH_TOKEN")) (environ !! "GITHUB_TOKEN").

Definition post_request (a : args) (tok : string) : Http.request :=
  {| Http.method := "POST";
     Http.url := "https://api.github.com/repos/" +:+ repo a +:+ "/issues/"
                 +:+ pr a +:+ "/comments";
     Http.headers := Http.github_headers tok;
     Http.payload := Some (Json.Obj [("body", Json.Str (message a))]) |}.

(** [main()]: [http] answers the request the script sends. *)
Definition main (a : args) (environ : gmap string string)
    (http : Http.request → Http.response) : outcome :=
  let token := token a environ in
  if negb (Py.truthy token) then
    {| exit_code := 2; stdout := [];
       stderr := ["Error: GH_TOKEN or --token required"]; requests := [] |}
  else
    let req := post_request a (default "" token) in
    let r := http req in
    if negb (bool_decide (Http.status_code r ∈ [200; 201])) then
      {| exit_code := 1; stdout := [];
         stderr := ["Failed to post comment: " +:+ pretty (Http.status_code r)
                    +:+ " " +:+ Http.text r];
         requests := [req] |}
    else
      match Http.json r ≫= (λ v, Json.get v "html_url") with
      | Some html_url =>
          {| exit_code := 0;
             stdout := [[Json.Str "Comment posted: "; html_url]];
             stderr := []; requests := [req] |}
      | None => {| exit_code := 1; stdout := []; stderr := []; requests := [req] |}
      end.

End Comment.

(** ** [fixbot_fetch_logs.py] *)

Module FetchLogs.

Record args := {
  repo : string;
  run_id : string;
  out : string;
  token_arg : option string
}.

Record outcome := {
  exit_code : nat;
  stderr : list string;
  requests : list Http.request;
  written : option (string * Json.value)
}.

(** [args.token or os.environ.get("GH_TOKEN") or os.environ.get("GITHUB_TOKEN")] *)
Definition token (a : args) (environ : gmap string string) : option string :=
  Py.or_ (Py.or_ (token_arg a) (environ !! "GH_TOKEN")) (environ !! "GITHUB_TOKEN").

Definition base : string := "https://api.github.com".

Definition run_url (a : args) : string :=
  base +:+ "/repos/" +:+ repo a +:+ "/actions/runs/" +:+ run_id a.

Definition jobs_url (a : args) : string :=
  base +:+ "/repos/" +:+ repo a +:+ "/actions/runs/" +:+ run_id a +:+ "/jobs".

Definition get_request (u tok : string) : Http.request :=
  {| Http.method := "GET"; Http.url := u;
     Http.headers := Http.github_headers tok; Http.payload := None |}.

(** [{"error": r.text}] on a status other than 200, [r.json()] otherwise:
    the value and the warning printed, [None] when [r.json()] raises. *)
Definition info_of (what : string) (r : Http.response)
  : option (Json.value * list string) :=
  if negb (bool_decide (Http.status_code r = 200)) then
    Some (Json.Obj [("error", Json.Str (Http.text r))],
          ["Warning: failed to fetch " +:+ what +:+ ": " +:+ pretty (Http.status_code r)])
  else (λ v, (v, [])) <$> Http.json r.

(** [{k: run_info.get(k) for k in (...)}] *)
Definition project (keys : list string) (v : Json.value) : option Json.value :=
  Json.Obj <$> mapM (λ k, pair k <$> Json.get v k) keys.

Definition run_keys : list string := ["id"; "head_sha"; "status"; "conclusion"; "event"].
Definition job_keys : list string := ["id"; "name"; "status"; "conclusion"; "html_url"].

(** The loop that fills [summary["jobs_summary"]]. *)
Definition jobs_summary (jobs_info : Json.value) : option (list Json.value) :=
  match jobs_info with
  | Json.Obj kvs =>
      match Json.lookup_key kvs "jobs" with
      | Some jobs => Json.iterate jobs ≫= mapM (project job_keys)
      | None => Some []
      end
  | _ => Some []
  end.

Definition crashed (errs : list string) (reqs : list Http.request) : outcome :=
  {| exit_code := 1; stderr := errs; requests := reqs; written := None |}.

(** [main()]: [http] answers the requests the script sends; [written] is
    the path and the object given to [json.dump]. *)
Definition main (a : args) (environ : gmap string string)
    (http : Http.request → Http.response) : outcome :=
  let token := token a environ in
  if negb (Py.truthy token) then
    {| exit_code := 2;
       stderr := ["Error: no GitHub token provided (GH_TOKEN or --token)"];
       requests := []; written := None |}
  else
    let tok := default "" token in
    let req1 := get_request (run_url a) tok in
    match info_of "run info" (http req1) with
    | None => crashed [] [req1]
    | Some (run_info, warn1) =>
        let req2 := get_request (jobs_url a) tok in
        match info_of "jobs" (http req2) with
        | None => crashed warn1 [req1; req2]
        | Some (jobs_info, warn2) =>
            match project run_keys run_info with
            | None => crashed (warn1 ++ warn2) [req1; req2]
            | Some run =>
                match jobs_summary jobs_info with
                | None => crashed (warn1 ++ warn2) [req1; req2]
                | Some js =>
                    {| exit_code := 0;
                       stderr := warn1 ++ warn2;
                       requests := [req1; req2];
                       written :=
                         Some (out a,
                               Json.Obj [("run", run);
                                         ("jobs_summary", Json.Arr js);
                                         ("raw_run", run_info);
                                         ("raw_jobs", jobs_info)]) |}
                end
            end
        end
    end.

End FetchLogs.

(** ** Notions the specification uses *)

Module Spec.

(** The credential chain in the specification's words: an ordered list of
    lookups, evaluated until one yields a non-empty value. *)
Fixpoint first_non_empty (l : list (option string)) : option string :=
  match l with
  | [] => None
  | Some s :: rest => if decide (s = "") then first_non_empty rest else Some s
  | None :: rest => first_non_empty rest
  end.

(** A body the fetcher can summarise as run metadata: a JSON object. *)
Definition run_body_ok (r : Http.response) : bool :=
  match Http.json r with
  | Some (Json.Obj _) => true
  | _ => false
  end.

(** A body the fetcher can summarise as a job list: any JSON value that is
    no object or has no [jobs] key, or an object whose [jobs] is a list of
    objects (or is empty). *)
Definition jobs_body_ok (r : Http.response) : bool :=
  match Http.json r with
  | Some (Json.Obj kvs) =>
      match Json.lookup_key kvs "jobs" with
      | Some (Json.Arr l) => forallb Json.is_dict l
      | Some (Json.Obj []) => true
      | Some (Json.Str EmptyString) => true
      | Some _ => false
      | None => true
      end
  | Some _ => true
  | None => false
  end.

(** [[a-z0-9_]] *)
Definition lower_word_class (c : ascii) : bool :=
  Py.between 97 122 c || Py.between 48 57 c || bool_decide (c = "_"%char).

(** The body of the loop over the captured headers. *)
Definition add_header (missing_headers : list string) (hdr : string) : list string :=
  if decide (hdr ∈ missing_headers) then missing_headers else missing_headers ++ [hdr].

(** *** Unified diffs *)

Definition no_newline (s : string) : bool :=
  Py.str_forallb (λ c, negb (Py.ord c =? 10)%N) s.

Inductive hunk_line :=
| Context (s : string)
| Added (s : string)
| Removed (s : string).

Definition line_text (l : hunk_line) : string :=
  match l with Context s | Added s | Removed s => s end.

Definition render_line (l : hunk_line) : string :=
  match l with
  | Context s => " " +:+ s
  | Added s => "+" +:+ s
  | Removed s => "-" +:+ s
  end.

Definition in_old (l : hunk_line) : bool :=
  match l with Added _ => false | _ => true end.

Definition in_new (l : hunk_line) : bool :=
  match l with Removed _ => false | _ => true end.

(** One file-level fragment with a single hunk: the two file names, the
    two ranges of the hunk header as they are printed, and the lines. *)
Record fragment := {
  from_file : string;
  to_file : string;
  old_range : string;
  new_range : string;
  body : list hunk_line
}.

Definition render (f : fragment) : string :=
  Py.join GeneratePatch.nl
    (("--- " +:+ from_file f) :: ("+++ " +:+ to_file f)
     :: ("@@ -" +:+ old_range f +:+ " +" +:+ new_range f +:+ " @@")
     :: map render_line (body f))
  +:+ GeneratePatch.nl.

Fixpoint render_all (fs : list fragment) : string :=
  match fs with
  | [] => ""
  | f :: fs' => render f +:+ render_all fs'
  end.

(** A range of [count] lines is printed as [start,count], or as [start]
    alone when it has one line. *)
Definition range_text (txt : string) (count : nat) : Prop :=
  ∃ start : nat,
    txt = pretty start +:+ "," +:+ pretty count ∨ (count = 1 ∧ txt = pretty start).

(** The ranges count the lines of the hunk, and no line holds a line
    feed. *)
Definition well_formed (f : fragment) : Prop :=
  range_text (old_range f) (length (filter (λ l, in_old l = true) (body f)))
  ∧ range_text (new_range f) (length (filter (λ l, in_new l = true) (body f)))
  ∧ Forall (λ l, no_newline (line_text l) = true) (body f)
  ∧ no_newline (from_file f) = true
  ∧ no_newline (to_file f) = true.

(** A patch in unified diff format: one well-formed fragment after the
    other, at least one. *)
Definition unified_diff_formatted (patch : string) : Prop :=
  ∃ fs, fs ≠ [] ∧ Forall well_formed fs ∧ patch = render_all fs.

(** A fragment that creates the file [rel]. *)
Definition new_file_style (rel : string) (f : fragment) : Prop :=
  from_file f = "/dev/null" ∧ to_file f = "b/" +:+ rel ∧ old_range f = "0,0"
  ∧ Forall (λ l, in_old l = false) (body f).

(** A fragment that changes the existing file [rel]. *)
Definition update_style (rel : string) (f : fragment) : Prop :=
  from_file f = "a/" +:+ rel ∧ to_file f = "b/" +:+ rel.

(** What a writer of the generator does with the fragment it made, if
    any: it appends it to the output file and returns [True], or returns
    [False]. *)
Definition emit (fs : gmap string Os.node) (out_path : string) (f : option fragment)
  : option (bool * gmap string Os.node) :=
  match f with
  | Some f => fs ← Os.append_text fs out_path (render f); Some (true, fs)
  | None => Some (false, fs)
  end.

(** The fragment [make_new_file_diff] prints for [lines]. *)
Definition new_file_fragment (rel : string) (lines : list string) : fragment :=
  {| from_file := "/dev/null"; to_file := "b/" +:+ rel;
     old_range := "0,0";
     new_range := "1," +:+ pretty (length lines);
     body := map Added lines |}.

(** The fragment [make_update_file_diff] prints when [added] is put after
    [old]: the last three lines of [old] as context, then the new lines. *)
Definition update_fragment (rel : string) (old added : list string) : fragment :=
  {| from_file := "a/" +:+ rel; to_file := "b/" +:+ rel;
     old_range := Difflib.format_range_unified (length old - 3) (length old);
     new_range :=
       Difflib.format_range_unified (length old - 3) (length old + length added);
     body := map Context (drop (length old - 3) old) ++ map Added added |}.

Definition notice_fragment : fragment :=
  new_file_fragment ".fixbot_notice.txt" GeneratePatch.notice_lines.

(** The fragment [write_requirements_patch] makes, if any: there is none
    when nothing is to be added, and none when the dependency list is there
    and cannot be read. *)
Definition requirements_fragment (repo_root : string) (missing_modules : list string)
    (fs : gmap string Os.node) : option fragment :=
  match missing_modules with
  | [] => None
  | _ =>
      let req_path := Os.path_join repo_root "requirements.txt" in
      if Os.path_exists fs req_path then
        text ← Os.read_text fs req_path;
        let old := Py.splitlines text in
        match GeneratePatch.added old missing_modules with
        | [] => None
        | added => Some (update_fragment "requirements.txt" old added)
        end
      else Some (new_file_fragment "requirements.txt" missing_modules)
  end.

(** What the [try] block of the generator has to write: the answer of the
    completion service to the log that was read, stripped; [None] without a
    key, without a log, without an answer and for an empty one. *)
#[warnings="-abstract-large-number"]
Definition answer (openai_key : option string) (completion : string → option string)
    (logs : option string) : option string :=
  if Py.truthy openai_key then
    text ← logs;
    text ← completion (GeneratePatch.prompt (Py.take_chars 8192 text));
    if Py.truthy (Some (Py.strip text)) then Some (Py.strip text) else None
  else None.

(** The fragment [write_system_deps_patch] makes, if any. *)
Definition system_deps_fragment (missing_headers : list string) : option fragment :=
  match missing_headers with
  | [] => None
  | _ =>
      Some (new_file_fragment ".fixbot_system_deps.txt"
              ("The following headers were reported missing during CI/compile:"
               :: missing_headers))
  end.

(** The fragments of a heuristic patch, in the order they are written:
    the two above, or the notice when there is neither. *)
Definition fragments (logs repo_root : string) (fs : gmap string Os.node)
  : list fragment :=
  match option_list (requirements_fragment repo_root
                       (GeneratePatch.missing_list logs) fs)
        ++ option_list (system_deps_fragment (GeneratePatch.missing_headers logs)) with
  | [] => [notice_fragment]
  | fs => fs
  end.

End Spec.

(** ** Further notions: shapes of names and of the fetcher's summary *)

Module Shapes.

(** [[a-z0-9_\-\.]] *)
Definition lower_dist_class (c : ascii) : bool :=
  Py.between 97 122 c || Py.between 48 57 c || bool_decide (c = "_"%char)
  || bool_decide (c = "-"%char) || bool_decide (c = "."%char).

(** A text with no white space at either end. *)
Definition trimmed (s : string) : Prop :=
  Py.lstrip_by Py.isspace s = s ∧ Py.rstrip_by Py.isspace s = s.

(** The entry of [jobs_summary] for one job: its five fields, [None] for a
    missing one. *)
Definition job_entry (job : Json.value) : Json.value :=
  match job with
  | Json.Obj kvs =>
      Json.Obj (map (λ k, (k, default Json.Null (Json.lookup_key kvs k)))
                  FetchLogs.job_keys)
  | _ => Json.Null
  end.


(** The warning the fetcher prints for a response, if any. *)
Definition warning (what : string) (r : Http.response) : list string :=
  if bool_decide (Http.status_code r = 200) then []
  else ["Warning: failed to fetch " +:+ what +:+ ": " +:+ pretty (Http.status_code r)].

End Shapes.

(** * Properties *)

(** ** Strings *)

Section Strings.

Lemma app_String (c : ascii) (s t : string) : String c s +:+ t = String c (s +:+ t).
Proof. reflexivity. Qed.

Lemma app_empty_l (t : string) : "" +:+ t = t.
Proof. reflexivity. Qed.

Lemma app_empty_r (s : string) : s +:+ "" = s.
Proof. induction s as [|c s IH]; [done|]. by rewrite app_String, IH. Qed.

Lemma app_assoc_str (s t u : string) : (s +:+ t) +:+ u = s +:+ t +:+ u.
Proof. induction s as [|c s IH]; [done|]. by rewrite !app_String, IH. Qed.

Lemma strip_prefix_app (p s : string) : Py.strip_prefix p (p +:+ s) = Some s.
Proof.
  induction p as [|c p IH]; [by destruct s|].
  rewrite app_String. simpl. by rewrite decide_True.
Qed.

Lemma strip_prefix_Some (p s s' : string) :
  Py.strip_prefix p s = Some s' → s = p +:+ s'.
Proof.
  revert s. induction p as [|c p IH]; intros s.
  - destruct s; simpl; by intros [= <-].
  - destruct s as [|d s]; simpl; [done|].
    case_decide; [|done]. intros ?%IH. rewrite app_String. congruence.
Qed.

Lemma drop_chars_app (p s : string) : Py.drop_chars (String.length p) (p +:+ s) = s.
Proof. induction p as [|c p IH]; [by destruct s|]. by rewrite app_String. Qed.

Lemma forallb_take_run (cls : ascii → bool) (s : string) (j : nat) :
  j ≤ Re.run_length cls s → Py.str_forallb cls (Py.take_chars j s) = true.
Proof.
  revert j. induction s as [|c s IH]; intros [|j]; simpl; try done.
  destruct (cls c) eqn:Hc; [|lia]. intros ?. rewrite IH by lia. done.
Qed.

Lemma take_chars_nonempty (cls : ascii → bool) (s : string) (j : nat) :
  1 ≤ j ≤ Re.run_length cls s → Py.take_chars j s ≠ "".
Proof. destruct s, j; simpl; try lia; done. Qed.

Lemma str_forallb_app (f : ascii → bool) (s t : string) :
  Py.str_forallb f (s +:+ t) = Py.str_forallb f s && Py.str_forallb f t.
Proof.
  induction s as [|c s IH]; [done|].
  rewrite app_String. simpl. by rewrite IH, andb_assoc.
Qed.

Lemma str_forallb_impl (f g : ascii → bool) (s : string) :
  (∀ c, f c = true → g c = true) →
  Py.str_forallb f s = true → Py.str_forallb g s = true.
Proof.
  intros Hfg. induction s as [|c s IH]; simpl; [done|].
  rewrite !andb_true_iff. intros [??]. auto.
Qed.

Lemma str_forallb_map (f : ascii → bool) (g : ascii → ascii) (s : string) :
  Py.str_forallb f (Py.str_map g s) = Py.str_forallb (f ∘ g) s.
Proof. induction s as [|c s IH]; simpl; [done|]. by rewrite IH. Qed.

End Strings.

(** ** Regular expressions *)

Section Regex.

Lemma try_lengths_Some {A} (n : nat) (k : nat → option A) (r : A) :
  Re.try_lengths n k = Some r → ∃ j, 1 ≤ j ≤ n ∧ k j = Some r.
Proof.
  induction n as [|n IH]; simpl; [done|].
  destruct (k (S n)) eqn:Hk.
  - intros [= ->]. exists (S n). split; [lia|done].
  - intros (j & ? & ?)%IH. exists j. split; [lia|done].
Qed.

Lemma try_lengths_None {A} (n : nat) (k : nat → option A) :
  (∀ j, 1 ≤ j ≤ n → k j = None) → Re.try_lengths n k = None.
Proof.
  induction n as [|n IH]; simpl; [done|]. intros H.
  rewrite H by lia. apply IH. intros j ?. apply H. lia.
Qed.

Lemma try_lengths_first {A} (n : nat) (k : nat → option A) (r : A) :
  k (S n) = Some r → Re.try_lengths (S n) k = Some r.
Proof. simpl. by intros ->. Qed.

(** Every capture [findall] returns is the capture of a match somewhere
    in the text. *)
Lemma findall_from_elem (p : list Re.item) (skip : nat) (s c : string) :
  c ∈ Re.findall_from p skip s → ∃ s' n, Re.match_here p s' = Some (c, n).
Proof.
  revert skip. induction s as [|a s IH]; intros skip.
  - destruct skip; simpl; [|by intros ?%elem_of_nil].
    destruct (Re.match_here p "") as [[cap len]|] eqn:Hm; [|by intros ?%elem_of_nil].
    intros ->%list_elem_of_singleton. eauto.
  - destruct skip; simpl; [|by apply IH].
    destruct (Re.match_here p (String a s)) as [[cap len]|] eqn:Hm; [|by apply IH].
    intros [->|?]%elem_of_cons; [eauto|by eapply IH].
Qed.

(** The shape [lit([cls]+)rest] of the three module patterns: a capture is
    a non-empty run of characters of the class. *)
Lemma match_here_group_plus (lit : string) (cls : ascii → bool)
    (rest : list Re.item) (s c : string) (n : nat) :
  (rest = [] ∨ ∃ l, rest = [Re.Lit l]) →
  Re.match_here (Re.Lit lit :: Re.GroupOpen :: Re.Plus cls :: Re.GroupClose :: rest) s
  = Some (c, n) →
  ∃ s1 j, s = lit +:+ s1 ∧ 1 ≤ j ≤ Re.run_length cls s1 ∧ c = Py.take_chars j s1.
Proof.
  intros Hrest. unfold Re.match_here. simpl.
  destruct (Py.strip_prefix lit s) as [s1|] eqn:Hs; [|done].
  apply strip_prefix_Some in Hs as ->.
  destruct (Re.try_lengths _ _) as [[[gs ge] len]|] eqn:Ht; [|done].
  apply try_lengths_Some in Ht as (j & Hj & Hk).
  intros [= <- <-]. exists s1, j. split; [done|]. split; [done|].
  assert (gs = String.length lit ∧ ge = String.length lit + j) as [-> ->].
  { destruct Hrest as [->|[l ->]]; simpl in Hk.
    - by simplify_eq.
    - destruct (Py.strip_prefix l _); by simplify_eq. }
  rewrite drop_chars_app. f_equal. lia.
Qed.

End Regex.

(** ** Detection of missing modules and headers *)

Section Detection.

Lemma word_class_lower (c : ascii) :
  GeneratePatch.word_class c = true →
  (Py.between 97 122 (Py.lower_char c) || Py.between 48 57 (Py.lower_char c)
   || bool_decide (Py.lower_char c = "_"%char)) = true.
Proof. destruct c as [[] [] [] [] [] [] [] []]; vm_compute; done. Qed.

Lemma add_all_union (f : string → string) (caps : list string) (s : gset string) :
  foldl (λ s m, s ∪ {[f m]}) s caps = s ∪ list_to_set (map f caps).
Proof.
  revert s. induction caps as [|c caps IH]; intros s; simpl.
  - set_solver.
  - rewrite IH. set_solver.
Qed.

Lemma sorted_spec (s : gset string) :
  Sorted String.le (Py.sorted s) ∧ NoDup (Py.sorted s)
  ∧ ∀ m, m ∈ Py.sorted s ↔ m ∈ s.
Proof.
  unfold Py.sorted. split; [|split].
  - apply Sorted_merge_sort; apply _.
  - rewrite merge_sort_Permutation. apply NoDup_elements.
  - intros m. rewrite merge_sort_Permutation. apply elem_of_elements.
Qed.

End Detection.

(** C5.  The set of missing modules is the union of the lower-cased
    captures of the [ModuleNotFoundError], [ImportError] and
    distribution-not-found patterns; as a set it holds each name once, and
    the list made of it is sorted and free of duplicates.  A log with
    [ModuleNotFoundError: No module named 'foo'] and
    [ImportError: No module named BAR] gives the set of [foo] and [bar]. *)
Theorem missing_modules_union :
  (∀ logs,
     GeneratePatch.missing logs
     = list_to_set (map Py.lower (Re.findall GeneratePatch.module_not_found_re logs))
       ∪ list_to_set (map Py.lower (Re.findall GeneratePatch.import_error_re logs))
       ∪ list_to_set (map Py.lower (Re.findall GeneratePatch.no_distribution_re logs)))
  ∧ (∀ logs, NoDup (GeneratePatch.missing_list logs)
             ∧ Sorted String.le (GeneratePatch.missing_list logs)
             ∧ ∀ m, m ∈ GeneratePatch.missing_list logs ↔ m ∈ GeneratePatch.missing logs)
  ∧ GeneratePatch.missing
      ("ModuleNotFoundError: No module named 'foo'" +:+ GeneratePatch.nl
       +:+ "ImportError: No module named BAR" +:+ GeneratePatch.nl)
    = {["foo"; "bar"]}.
Proof.
  split; [|split].
  - intros logs. unfold GeneratePatch.missing. rewrite !add_all_union. set_solver.
  - intros logs. pose proof (sorted_spec (GeneratePatch.missing logs)) as (? & ? & ?).
    done.
  - apply set_eq. intros m. rewrite <-!elem_of_elements.
    by vm_compute.
Qed.

Section Headers.

Lemma add_header_elem (acc : list string) (c h : string) :
  h ∈ Spec.add_header acc c ↔ h ∈ acc ∨ h = c.
Proof.
  unfold Spec.add_header. case_decide.
  - split; [by left|]. by intros [?| ->].
  - by rewrite elem_of_app, list_elem_of_singleton.
Qed.

Lemma add_header_NoDup (acc : list string) (c : string) :
  NoDup acc → NoDup (Spec.add_header acc c).
Proof.
  intros Hnd. unfold Spec.add_header. case_decide; [done|].
  apply NoDup_app. split; [done|]. split; [|apply NoDup_singleton].
  by intros x Hx ->%list_elem_of_singleton.
Qed.

Lemma add_header_prefix (acc : list string) (c : string) :
  acc `prefix_of` Spec.add_header acc c.
Proof. unfold Spec.add_header. case_decide; [done|]. by apply prefix_app_r. Qed.

(** The loop that fills [missing_headers], started from any list without
    duplicates: it keeps what it has, adds every capture once, and puts a
    new header after all the headers that were seen before it. *)
Lemma headers_loop (caps acc : list string) :
  NoDup acc →
  let r := foldl Spec.add_header acc caps in
  NoDup r
  ∧ acc `prefix_of` r
  ∧ (∀ h, h ∈ r ↔ h ∈ acc ∨ h ∈ caps)
  ∧ (∀ i j h1 h2, r !! i = Some h1 → r !! j = Some h2 → i < j →
       h1 ∈ acc ∨ ∃ p, caps !! p = Some h1 ∧ (h2 ∉ take p caps) ∧ h2 ∉ acc).
Proof.
  revert acc. induction caps as [|c caps IH]; intros acc Hnd; simpl.
  - split; [done|]. split; [done|]. split.
    { intros h. rewrite elem_of_nil. tauto. }
    intros i j h1 h2 Hi _ _. left. by eapply list_elem_of_lookup_2.
  - destruct (IH (Spec.add_header acc c) (add_header_NoDup _ _ Hnd))
      as (Hnd' & Hpre & Hel & Hord).
    split; [done|]. split; [by etrans; [apply add_header_prefix|]|]. split.
    { intros h. rewrite Hel, add_header_elem, elem_of_cons. tauto. }
    intros i j h1 h2 Hi Hj Hij.
    destruct (Hord i j h1 h2 Hi Hj Hij) as [Hin|(p & Hp & Hnot & Hacc)].
    + apply add_header_elem in Hin as [Hin| ->]; [by left|].
      destruct (decide (c ∈ acc)) as [?|Hc]; [by left|]. right.
      exists 0. split; [done|]. split; [by rewrite take_0; apply not_elem_of_nil|].
      (* [c] sits right after [acc], and [h2] comes later *)
      assert (Spec.add_header acc c = acc ++ [c]) as Heq
        by (unfold Spec.add_header; by rewrite decide_False).
      assert (acc ++ [c] `prefix_of` foldl Spec.add_header (Spec.add_header acc c) caps) as Hpre'
        by (by rewrite <-Heq).
      assert (i = length acc) as ->.
      { eapply NoDup_lookup; [exact Hnd'|exact Hi|].
        eapply prefix_lookup_Some; [|exact Hpre'].
        by rewrite lookup_app_r, Nat.sub_diag by lia. }
      intros (k & Hk)%list_elem_of_lookup_1.
      assert (j = k); [|pose proof (lookup_lt_Some _ _ _ Hk); lia].
      eapply NoDup_lookup; [exact Hnd'|exact Hj|].
      eapply prefix_lookup_Some; [|exact Hpre'].
      by rewrite lookup_app_l by (by eapply lookup_lt_Some).
    + right. exists (S p). split; [done|]. split.
      * rewrite firstn_cons. intros [->|?]%elem_of_cons; [|done].
        apply Hacc, add_header_elem. by right.
      * intros ?. apply Hacc, add_header_elem. by left.
Qed.

End Headers.

(** C8.  The list of missing headers holds each captured header path once,
    in the order of first appearance: of two headers of the list, the first
    one is captured at a place before which the second one has not been
    captured.  Two occurrences of [fatal error: a/b.h: No such file or
    directory] followed by one for [c.h] give the list of [a/b.h] and
    [c.h]. *)
Theorem missing_headers_first_appearance :
  (∀ logs,
     let caps := Re.findall GeneratePatch.missing_header_re logs in
     let hs := GeneratePatch.missing_headers logs in
     NoDup hs
     ∧ (∀ h, h ∈ hs ↔ h ∈ caps)
     ∧ (∀ i j h1 h2, hs !! i = Some h1 → hs !! j = Some h2 → i < j →
          ∃ p, caps !! p = Some h1 ∧ (h2 ∉ take p caps)))
  ∧ GeneratePatch.missing_headers
      ("fatal error: a/b.h: No such file or directory" +:+ GeneratePatch.nl
       +:+ "fatal error: a/b.h: No such file or directory" +:+ GeneratePatch.nl
       +:+ "fatal error: c.h: No such file or directory" +:+ GeneratePatch.nl)
    = ["a/b.h"; "c.h"].
Proof.
  split; [|by vm_compute].
  intros logs caps hs.
  destruct (headers_loop caps [] (NoDup_nil_2 : NoDup [])) as (Hnd & _ & Hel & Hord).
  split; [exact Hnd|]. split.
  - intros h. etrans; [apply Hel|]. rewrite elem_of_nil. tauto.
  - intros i j h1 h2 Hi Hj Hij.
    destruct (Hord i j h1 h2 Hi Hj Hij) as [[]%elem_of_nil|(p & ? & ? & _)]. eauto.
Qed.

(** The witness: in the log of the example, [a/b.h] is captured first, at a
    place before which [c.h] has not been seen. *)
Lemma missing_headers_first_appearance_witness :
  let logs := "fatal error: a/b.h: No such file or directory" +:+ GeneratePatch.nl
              +:+ "fatal error: a/b.h: No such file or directory" +:+ GeneratePatch.nl
              +:+ "fatal error: c.h: No such file or directory" +:+ GeneratePatch.nl in
  ∃ p, Re.findall GeneratePatch.missing_header_re logs !! p = Some "a/b.h"
       ∧ "c.h" ∉ take p (Re.findall GeneratePatch.missing_header_re logs).
Proof.
  intros logs.
  apply (proj2 (proj2 (proj1 missing_headers_first_appearance logs)) 0 1 "a/b.h" "c.h");
    [reflexivity|reflexivity|lia].
Defined.

Section ModuleNames.

Lemma lower_word (c : string) :
  Py.str_forallb GeneratePatch.word_class c = true →
  Py.str_forallb Spec.lower_word_class (Py.lower c) = true.
Proof.
  unfold Py.lower. rewrite str_forallb_map.
  apply str_forallb_impl. intros a. apply word_class_lower.
Qed.

(** No place up to the end of the first run of word characters of [name]
    holds a quote, when [name] has another character and no quote. *)
Lemma no_quote_after_run (name tail : string) (j : nat) :
  Py.str_forallb GeneratePatch.word_class name = false →
  Py.str_forallb (λ c, negb (bool_decide (c = "'"%char))) name = true →
  j ≤ Re.run_length GeneratePatch.word_class (name +:+ tail) →
  Py.strip_prefix "'" (Py.drop_chars j (name +:+ tail)) = None.
Proof.
  revert j. induction name as [|c name IH]; intros j; [done|].
  rewrite app_String. simpl.
  intros Hw [Hq Hqs]%andb_true_iff Hj.
  apply negb_true_iff, bool_decide_eq_false in Hq.
  destruct j as [|j]; simpl.
  - by rewrite decide_False by congruence.
  - destruct (GeneratePatch.word_class c); [|lia].
    apply IH; [done|done|lia].
Qed.

End ModuleNames.

(** C10, as the code has it.  Every name the [ModuleNotFoundError] and
    [ImportError] patterns contribute is non-empty and, lower-cased, made of
    the characters a-z, 0-9 and underscore.  In the quoted
    [ModuleNotFoundError] form a name with another character (and no quote)
    gives no match at all.  In the unquoted [ImportError] form the name is
    cut at its first other character and the word before it is captured, when
    there is one. *)
Theorem module_name_characters :
  (∀ logs c,
     c ∈ Re.findall GeneratePatch.module_not_found_re logs
     ∨ c ∈ Re.findall GeneratePatch.import_error_re logs →
     c ≠ "" ∧ Py.str_forallb Spec.lower_word_class (Py.lower c) = true)
  ∧ (∀ name rest,
       Py.str_forallb GeneratePatch.word_class name = false →
       Py.str_forallb (λ c, negb (bool_decide (c = "'"%char))) name = true →
       Re.match_here GeneratePatch.module_not_found_re
         ("ModuleNotFoundError: No module named '" +:+ name +:+ "'" +:+ rest) = None)
  ∧ (∀ s,
       Re.match_here GeneratePatch.import_error_re ("ImportError: No module named " +:+ s)
       = match Re.run_length GeneratePatch.word_class s with
         | 0 => None
         | S n => Some (Py.take_chars (S n) s, 29 + S n)
         end).
Proof.
  split; [|split].
  - intros logs c Hc.
    assert (∃ s1 j, 1 ≤ j ≤ Re.run_length GeneratePatch.word_class s1
                    ∧ c = Py.take_chars j s1) as (s1 & j & Hj & ->).
    { destruct Hc as [Hc|Hc]; apply findall_from_elem in Hc as (s' & n & Hm);
        apply match_here_group_plus in Hm as (s1 & j & _ & ? & ?); eauto. }
    split; [by eapply take_chars_nonempty|].
    apply lower_word, forallb_take_run. lia.
  - intros name rest Hw Hq.
    unfold Re.match_here, GeneratePatch.module_not_found_re.
    cbn [Re.match_items]. rewrite strip_prefix_app.
    rewrite try_lengths_None; [done|].
    intros j Hj. cbn [Re.match_items].
    rewrite no_quote_after_run; [done..|lia].
  - intros s.
    unfold Re.match_here, GeneratePatch.import_error_re.
    cbn [Re.match_items]. rewrite strip_prefix_app.
    destruct (Re.run_length GeneratePatch.word_class s) as [|n] eqn:Hn; [done|].
    erewrite try_lengths_first by reflexivity.
    rewrite Nat.add_0_l, drop_chars_app.
    change (String.length "ImportError: No module named ") with 29.
    by replace (29 + S n - 29) with (S n) by lia.
Qed.

(** The witness of the second part: the module name [pkg.sub]. *)
Lemma module_name_characters_witness :
  Re.match_here GeneratePatch.module_not_found_re
    ("ModuleNotFoundError: No module named '" +:+ "pkg.sub" +:+ "'" +:+ "") = None.
Proof.
  apply (proj1 (proj2 module_name_characters) "pkg.sub" ""); reflexivity.
Defined.

(** C10 as the specification words it fails in the [ImportError] form: the
    name [pkg.sub] is not left out, its first word [pkg] is added. *)
Lemma import_error_dotted_name_contributes :
  GeneratePatch.missing_list "ImportError: No module named pkg.sub" = ["pkg"]
  ∧ GeneratePatch.missing_list "ModuleNotFoundError: No module named 'pkg.sub'" = [].
Proof. by vm_compute. Qed.

(** ** Credentials *)

Section Credentials.

Lemma truthy_Some (v : option string) :
  Py.truthy v = true ↔ ∃ s, v = Some s ∧ s ≠ "".
Proof.
  destruct v as [s|]; simpl.
  - rewrite negb_true_iff, bool_decide_eq_false.
    split; [intros; eexists; eauto | intros (s' & [= ->] & ?); done].
  - split; [done | intros (? & ? & ?); done].
Qed.

(** The chained [or] picks the first non-empty candidate; when there is
    none its value is false. *)
Lemma or_chain_first_non_empty (x y z : option string) :
  match Spec.first_non_empty [x; y; z] with
  | Some t => Py.or_ (Py.or_ x y) z = Some t ∧ t ≠ ""
  | None => Py.truthy (Py.or_ (Py.or_ x y) z) = false
  end.
Proof.
  unfold Py.or_, Py.truthy; simpl.
  destruct x as [x|], y as [y|], z as [z|]; simpl;
    repeat (case_decide; simplify_eq/=);
    repeat (case_bool_decide; simplify_eq/=); done.
Qed.

End Credentials.

(** C9.  Both the comment poster and the log fetcher take as credential the
    first non-empty value among the [--token] argument, [GH_TOKEN] and
    [GITHUB_TOKEN], in this order, and send it with every request; when all
    three are empty or absent they exit with status 2 and send nothing. *)
Theorem credential_resolution :
  (∀ (a : Comment.args) (environ : gmap string string) http,
     let o := Comment.main a environ http in
     match Spec.first_non_empty
             [Comment.token_arg a; environ !! "GH_TOKEN"; environ !! "GITHUB_TOKEN"] with
     | Some t => Comment.token a environ = Some t
                 ∧ Comment.requests o = [Comment.post_request a t]
     | None => Comment.exit_code o = 2 ∧ Comment.requests o = []
     end)
  ∧ (∀ (a : FetchLogs.args) (environ : gmap string string) http,
       let o := FetchLogs.main a environ http in
       match Spec.first_non_empty
               [FetchLogs.token_arg a; environ !! "GH_TOKEN"; environ !! "GITHUB_TOKEN"] with
       | Some t => FetchLogs.token a environ = Some t
                   ∧ FetchLogs.requests o ≠ []
                   ∧ Forall (λ q, Http.headers q = Http.github_headers t)
                            (FetchLogs.requests o)
       | None => FetchLogs.exit_code o = 2 ∧ FetchLogs.requests o = []
                 ∧ FetchLogs.written o = None
       end).
Proof.
  split; intros a environ http o; subst o.
  - pose proof (or_chain_first_non_empty (Comment.token_arg a)
                  (environ !! "GH_TOKEN") (environ !! "GITHUB_TOKEN")) as H.
    unfold Comment.main. fold (Comment.token a environ) in H.
    destruct (Spec.first_non_empty _) as [t|].
    + destruct H as [-> Ht]. split; [done|].
      assert (Py.truthy (Some t) = true) as -> by (apply truthy_Some; eauto).
      simpl. repeat case_match; done.
    + rewrite H. done.
  - pose proof (or_chain_first_non_empty (FetchLogs.token_arg a)
                  (environ !! "GH_TOKEN") (environ !! "GITHUB_TOKEN")) as H.
    unfold FetchLogs.main. fold (FetchLogs.token a environ) in H.
    destruct (Spec.first_non_empty _) as [t|].
    + destruct H as [-> Ht]. split; [done|].
      assert (Py.truthy (Some t) = true) as -> by (apply truthy_Some; eauto).
      simpl. repeat case_match; simpl; (split; [done|]); repeat constructor.
    + rewrite H. done.
Qed.

(** ** The comment poster *)

(** C2, as the code has it.  With a credential the poster sends one request.
    On status 200 or 201 with a JSON object as body it prints the [html_url]
    of the body ([None] when the key is missing) and exits with status 0; on
    every other status, 2xx or not, it prints the status and the body and
    exits with status 1.  Without a credential it exits with status 2 and
    sends nothing. *)
Theorem comment_outcome (a : Comment.args) (environ : gmap string string)
    (http : Http.request → Http.response) :
  let o := Comment.main a environ http in
  match Spec.first_non_empty
          [Comment.token_arg a; environ !! "GH_TOKEN"; environ !! "GITHUB_TOKEN"] with
  | Some t =>
      let r := http (Comment.post_request a t) in
      Comment.requests o = [Comment.post_request a t]
      ∧ if bool_decide (Http.status_code r = 200 ∨ Http.status_code r = 201) then
          match Http.json r with
          | Some (Json.Obj kvs) =>
              Comment.exit_code o = 0
              ∧ Comment.stdout o
                = [[Json.Str "Comment posted: ";
                    default Json.Null (Json.lookup_key kvs "html_url")]]
          | _ => Comment.exit_code o = 1 ∧ Comment.stdout o = []
          end
        else
          Comment.exit_code o = 1
          ∧ Comment.stdout o = []
          ∧ Comment.stderr o
            = ["Failed to post comment: " +:+ pretty (Http.status_code r)
               +:+ " " +:+ Http.text r]
  | None => Comment.exit_code o = 2 ∧ Comment.requests o = []
  end.
Proof.
  intros o; subst o.
  pose proof (or_chain_first_non_empty (Comment.token_arg a)
                (environ !! "GH_TOKEN") (environ !! "GITHUB_TOKEN")) as H.
  unfold Comment.main. fold (Comment.token a environ) in H.
  destruct (Spec.first_non_empty _) as [t|]; [|by rewrite H].
  destruct H as [-> Ht].
  assert (Py.truthy (Some t) = true) as -> by (apply truthy_Some; eauto).
  simpl. set (r := http _).
  assert (bool_decide (Http.status_code r ∈ [200; 201])
          = bool_decide (Http.status_code r = 200 ∨ Http.status_code r = 201)) as ->.
  { apply bool_decide_ext. rewrite !elem_of_cons, elem_of_nil. tauto. }
  case_bool_decide; simpl.
  - destruct (Http.json r) as [[]|]; simpl; done.
  - done.
Qed.

(** C2 as the specification words it fails on a 2xx status other than 200 and
    201: on 202 the poster exits with status 1 and reports no URL. *)
Lemma comment_status_202_fails :
  let a := {| Comment.repo := "o/r"; Comment.pr := "1"; Comment.message := "hi";
              Comment.token_arg := Some "t" |} in
  let r := {| Http.status_code := 202; Http.text := "{}";
              Http.json := Some (Json.Obj [("html_url", Json.Str "u")]) |} in
  let o := Comment.main a ∅ (λ _, r) in
  200 ≤ Http.status_code r < 300
  ∧ Comment.token a ∅ = Some "t"
  ∧ Comment.exit_code o = 1
  ∧ Comment.stdout o = [].
Proof. vm_compute. repeat split; lia. Qed.

(** ** The log fetcher *)

Lemma project_obj (ks : list string) (kvs : list (string * Json.value)) :
  FetchLogs.project ks (Json.Obj kvs)
  = Some (Json.Obj (map (λ k, (k, default Json.Null (Json.lookup_key kvs k))) ks)).
Proof.
  unfold FetchLogs.project.
  assert (mapM (λ k, pair k <$> Json.get (Json.Obj kvs) k) ks
          = Some (map (λ k, (k, default Json.Null (Json.lookup_key kvs k))) ks)) as ->; [|done].
  induction ks as [|k ks IH]; [done|].
  change (mapM ?f (k :: ks)) with (y ← f k; l ← mapM f ks; mret (y :: l)).
  by rewrite IH.
Qed.

Lemma project_not_obj (ks : list string) (v : Json.value) :
  Json.is_dict v = false → ks ≠ [] → FetchLogs.project ks v = None.
Proof. destruct ks; [done|]. by destruct v. Qed.

Lemma mapM_project_is_Some (l : list Json.value) :
  is_Some (mapM (FetchLogs.project FetchLogs.job_keys) l) ↔ forallb Json.is_dict l = true.
Proof.
  induction l as [|v l IH]; [by eauto|].
  change (mapM ?f (v :: l)) with (y ← f v; k ← mapM f l; mret (y :: k)).
  cbn [forallb]. rewrite andb_true_iff, <-IH. clear IH.
  destruct (Json.is_dict v) eqn:Hv.
  - destruct v; try done. rewrite project_obj. cbn [mbind option_bind].
    destruct (mapM _ l); cbn.
    + split; [by eauto | intros _; by eexists].
    + split; [intros [? [=]] | intros [_ [? [=]]]].
  - rewrite project_not_obj by done. cbn. split; [intros [? [=]] | intros [[=] _]].
Qed.

Lemma mapM_project_chars (s : string) :
  s ≠ "" → mapM (FetchLogs.project FetchLogs.job_keys) (Json.chars s) = None.
Proof. by destruct s. Qed.

(** The loop over the jobs runs to its end exactly on the bodies
    [Spec.jobs_body_ok] accepts. *)
Lemma jobs_summary_is_Some (r : Http.response) (v : Json.value) :
  Http.json r = Some v →
  is_Some (FetchLogs.jobs_summary v) ↔ Spec.jobs_body_ok r = true.
Proof.
  intros Hv. unfold Spec.jobs_body_ok, FetchLogs.jobs_summary. rewrite Hv.
  destruct v as [| | | |l|kvs]; try by eauto.
  destruct (Json.lookup_key kvs "jobs") as [[| | |s|l|kvs']|]; simpl;
    try (split; [intros [? [=]] | done]); try by eauto.
  - destruct s; simpl; [by eauto|]. split; [intros [? [=]] | done].
  - apply mapM_project_is_Some.
  - destruct kvs' as [|[k x] kvs']; simpl; [by eauto|].
    split; [intros [? [=]] | done].
Qed.





(** ** The sequence matcher on a list and its extension *)

Import Matcher.

Section ChainB.

Lemma elem_of_positions_from (n : nat) (x : string) (b : list string) (j : nat) :
  j ∈ positions_from n x b ↔ ∃ i, j = n + i ∧ b !! i = Some x.
Proof.
  revert n. induction b as [|y b IH]; intros n; simpl.
  - rewrite elem_of_nil. split; [done|]. by intros (i & _ & ?).
  - assert (j ∈ positions_from (S n) x b ↔ ∃ i, j = n + S i ∧ b !! i = Some x) as IH'.
    { rewrite IH. by setoid_rewrite Nat.add_succ_r. }
    case_decide as Hy; [rewrite elem_of_cons|]; rewrite IH'; split.
    + intros [->|(i & -> & ?)]; [exists 0|exists (S i)]; simpl; subst;
        (split; [lia|done]).
    + intros ([|i] & -> & Hi); [left; lia|right]. by exists i.
    + intros (i & -> & ?). by exists (S i).
    + intros ([|i] & -> & Hi); simplify_eq/=. by exists i.
Qed.

Lemma positions_from_sorted (n : nat) (x : string) (b : list string) :
  StronglySorted lt (positions_from n x b).
Proof.
  revert n. induction b as [|y b IH]; intros n; simpl; [constructor|].
  case_decide; [|done]. constructor; [done|].
  apply Forall_forall. intros j (i & -> & _)%elem_of_positions_from. lia.
Qed.

Lemma chain_fold (b : list string) (n : nat) (m0 : gmap string (list nat)) (x : string) :
  foldl (λ (m : gmap string (list nat)) '(i, elt),
           <[elt := default [] (m !! elt) ++ [i]]> m)
        m0 (imap (λ i y, (n + i, y)) b) !! x
  = match positions_from n x b with
    | [] => m0 !! x
    | ps => Some (default [] (m0 !! x) ++ ps)
    end.
Proof.
  revert n m0. induction b as [|y b IH]; intros n m0; [done|].
  rewrite imap_cons. cbn [foldl positions_from].
  rewrite (imap_ext _ (λ i y, (S n + i, y))) by (intros; simpl; f_equal; lia).
  rewrite IH, Nat.add_0_r. case_decide as Hy.
  - subst y. rewrite lookup_insert_eq. cbn [default from_option id].
    destruct (positions_from (S n) x b); [done|]. by rewrite <-app_assoc.
  - by rewrite lookup_insert_ne.
Qed.

(** [b2j] keeps for an element either nothing or all its positions. *)
Lemma entries_spec (b : list string) (x : string) :
  entries b x = [] ∨ entries b x = positions_from 0 x b.
Proof.
  unfold entries, Difflib.chain_b.
  set (m := foldl _ ∅ (imap pair b)).
  assert (default [] (m !! x) = positions_from 0 x b) as Hm.
  { subst m. change (imap pair b) with (imap (λ i y, (0 + i, y)) b).
    rewrite chain_fold, lookup_empty. by destruct (positions_from 0 x b). }
  case_decide; [|by right].
  destruct (filter _ m !! x) as [js|] eqn:Hf; [|by left].
  apply map_lookup_filter_Some in Hf as [Hf _]. rewrite Hf in Hm. by right.
Qed.

Lemma entries_elem (b : list string) (x : string) (j : nat) :
  j ∈ entries b x → b !! j = Some x.
Proof.
  destruct (entries_spec b x) as [->| ->]; [by intros ?%elem_of_nil|].
  by intros (i & -> & ?)%elem_of_positions_from.
Qed.

Lemma entries_all (b : list string) (x : string) (j : nat) :
  entries b x ≠ [] → b !! j = Some x → j ∈ entries b x.
Proof.
  destruct (entries_spec b x) as [->| ->]; [done|].
  intros _ ?. apply elem_of_positions_from. by exists j.
Qed.

Lemma entries_sorted (b : list string) (x : string) : StronglySorted lt (entries b x).
Proof.
  destruct (entries_spec b x) as [->| ->]; [constructor|apply positions_from_sorted].
Qed.

Lemma run_before_le (a b : list string) (i : nat) : run_before a b i ≤ i.
Proof.
  induction i as [|i IH]; simpl; [done|].
  destruct (a !! i); [|lia]. case_decide; lia.
Qed.

End ChainB.

Section InnerLoop.

Lemma j2lenget_pred_le (m : gmap nat nat) (j r : nat) :
  (∀ j', getv m j' ≤ r) → Difflib.j2lenget_pred m j ≤ r.
Proof. intros H. destruct j as [|j']; simpl; [lia|apply H]. Qed.

(** One row of the scan, over the ascending positions [js] of the row's
    element: of the lengths it computes, none left of the diagonal beats
    the best so far, the one on the diagonal is [R], and none right of the
    diagonal beats [R]; so the best block stays on the diagonal. *)
Lemma inner_loop_spec (i bhi R : nat) (j2len : gmap nat nat) (js : list nat)
    (best : nat * nat * nat) (new : gmap nat nat) :
  StronglySorted lt js →
  (∀ j, j ∈ js → j < bhi) →
  (∀ j, j ∈ js → j < i → Difflib.j2lenget_pred j2len j + 1 ≤ best.2) →
  Difflib.j2lenget_pred j2len i + 1 = R →
  R ≤ i + 1 →
  (∀ j, j ∈ js → i < j → Difflib.j2lenget_pred j2len j + 1 ≤ R) →
  (i ∈ js ∨ R ≤ best.2) →
  best.1.1 = best.1.2 →
  best.1.1 + best.2 ≤ i + 1 →
  ∃ best' new',
    Difflib.inner_loop i 0 bhi j2len js best new = (best', new')
    ∧ best'.1.1 = best'.1.2
    ∧ best'.1.1 + best'.2 ≤ i + 1
    ∧ best.2 ≤ best'.2
    ∧ R ≤ best'.2
    ∧ ∀ j, new' !! j = if decide (j ∈ js)
                       then Some (Difflib.j2lenget_pred j2len j + 1)
                       else new !! j.
Proof.
  intros Hsort. revert best new.
  induction Hsort as [|j js Hsort IH Hmin];
    intros best new Hhi Hleft HR HRi Hright HQ Hdiag Hsum.
  - exists best, new. simpl. destruct HQ as [[]%elem_of_nil|HQ].
    repeat split; done.
  - rewrite Forall_forall in Hmin.
    assert (j ∉ js) as Hj by (intros ?%Hmin; lia).
    set (k := Difflib.j2lenget_pred j2len j + 1).
    set (best1 := if decide (best.2 < k) then (i + 1 - k, j + 1 - k, k) else best).
    assert (Difflib.inner_loop i 0 bhi j2len (j :: js) best new
            = Difflib.inner_loop i 0 bhi j2len js best1 (<[j := k]> new)) as Hstep.
    { simpl.
      by rewrite (decide_False (P := bhi ≤ j))
        by (specialize (Hhi j (list_elem_of_here _ _)); lia). }
    (* only the diagonal can improve on the best block *)
    assert (best.2 < k → j = i) as Hupd.
    { intros Hk. destruct (Nat.lt_total j i) as [Hlt|[?|Hgt]]; [|done|].
      - specialize (Hleft j (list_elem_of_here _ _) Hlt). unfold k in Hk. lia.
      - specialize (Hright j (list_elem_of_here _ _) Hgt). fold k in Hright.
        destruct HQ as [[?|Hi]%elem_of_cons|HQ]; [lia| |lia].
        apply Hmin in Hi. lia. }
    assert (best.2 ≤ best1.2 ∧ k ≤ best1.2 ∧ best1.1.1 = best1.1.2
            ∧ best1.1.1 + best1.2 ≤ i + 1) as (Hb1 & Hb2 & Hb3 & Hb4).
    { unfold best1. case_decide as Hk; simpl; [|lia].
      specialize (Hupd Hk). subst j. unfold k in *. lia. }
    destruct (IH best1 (<[j := k]> new)) as (best' & new' & Heq & ? & ? & ? & ? & Hnew).
    + intros j' ?. apply Hhi. by right.
    + intros j' ? ?. etrans; [apply Hleft; [by right|done]|done].
    + done.
    + done.
    + intros j' ? ?. apply Hright; [by right|done].
    + destruct HQ as [[->|?]%elem_of_cons|?]; [right|by left|right; lia].
      unfold k in Hb2. lia.
    + done.
    + done.
    + exists best', new'. split; [by rewrite Hstep|].
      repeat split; try done; try lia.
      intros j'. rewrite Hnew. destruct (decide (j' = j)) as [->|Hne].
      * rewrite decide_False by done. rewrite lookup_insert_eq.
        by rewrite decide_True by left.
      * rewrite lookup_insert_ne by done.
        destruct (decide (j' ∈ js)).
        -- by rewrite decide_True by (by right).
        -- rewrite decide_False; [done|]. by intros [?|?]%elem_of_cons.
Qed.

End InnerLoop.

Section AppendOnly.
Variables a added : list string.

Let b : list string := a ++ added.
Let la : nat := length a.
Let lb : nat := length b.

Lemma lookup_a_b (i : nat) (x : string) : a !! i = Some x → b !! i = Some x.
Proof. intros ?. unfold b. by apply lookup_app_l_Some. Qed.

Lemma lookup_b_a (i : nat) (x : string) : i < la → b !! i = Some x → a !! i = Some x.
Proof. unfold b, la. intros ?. by rewrite lookup_app_l. Qed.

Lemma run_before_S (i : nat) (x : string) :
  a !! i = Some x → entries b x ≠ [] → run_before a b (S i) = run_before a b i + 1.
Proof. intros Hx ?. simpl. rewrite Hx. by rewrite decide_False. Qed.

Lemma run_before_S_0 (i : nat) (x : string) :
  a !! i = Some x → entries b x = [] → run_before a b (S i) = 0.
Proof. intros Hx ?. simpl. rewrite Hx. by rewrite decide_True. Qed.

Lemma scan_row_inv (i : nat) (st : (nat * nat * nat) * gmap nat nat) :
  i < la → scan_inv a b i st → scan_inv a b (S i) (scan_row a b st i).
Proof.
  intros Hi (Hdiag & Hsum & Hbest & Hd & Hall & Hlow).
  destruct st as [best j2len]. cbn [fst snd] in *.
  destruct (lookup_lt_is_Some_2 a i Hi) as [x Hx].
  unfold scan_row. rewrite Hx. cbn [from_option].
  fold (entries b x).
  destruct (decide (entries b x = [])) as [He|He].
  - (* a popular element: the row does nothing *)
    rewrite He. cbn [Difflib.inner_loop].
    pose proof (run_before_S_0 i x Hx He) as H0.
    unfold scan_inv. cbn [fst snd]. split_and!.
    + done.
    + lia.
    + intros i' Hi'. destruct (decide (i' = S i)) as [->|?]; [lia|].
      apply Hbest. lia.
    + cbn [Difflib.j2lenget_pred]. by rewrite lookup_empty, H0.
    + intros j. unfold getv. rewrite lookup_empty. cbn [default from_option id]. lia.
    + intros [|j] _; cbn [Difflib.j2lenget_pred]; [lia|].
      rewrite lookup_empty. cbn [default from_option id]. lia.
  - pose proof (run_before_S i x Hx He) as HS.
    assert (∀ j, j ∈ entries b x → j ≤ i →
              run_before a b (S j) = run_before a b j + 1) as Hrun.
    { intros j Hj ?. apply (run_before_S j x); [|done].
      apply lookup_b_a; [lia|]. by apply entries_elem. }
    destruct (inner_loop_spec i (length b) (run_before a b (S i)) j2len (entries b x) best ∅)
      as (best' & new' & -> & Hdiag' & Hsum' & Hmono & HR & Hnew).
    + apply entries_sorted.
    + intros j Hj%entries_elem. by eapply lookup_lt_Some.
    + intros j Hj Hlt.
      specialize (Hlow j ltac:(lia)). specialize (Hrun j Hj ltac:(lia)).
      specialize (Hbest (S j) ltac:(lia)). lia.
    + lia.
    + pose proof (run_before_le a b (S i)). lia.
    + intros j Hj Hlt. pose proof (j2lenget_pred_le j2len j _ Hall). lia.
    + left. apply entries_all; [done|]. by apply lookup_a_b.
    + done.
    + lia.
    + assert (i ∈ entries b x) as Hin
        by (apply entries_all; [done|]; by apply lookup_a_b).
      unfold scan_inv. cbn [fst snd]. split_and!.
      * done.
      * lia.
      * intros i' Hi'. destruct (decide (i' = S i)) as [->|?]; [lia|].
        specialize (Hbest i' ltac:(lia)). lia.
      * cbn [Difflib.j2lenget_pred]. rewrite Hnew, decide_True by done.
        cbn [default from_option id]. lia.
      * intros j. unfold getv. rewrite Hnew, lookup_empty.
        case_decide; cbn [default from_option id]; [|lia].
        pose proof (j2lenget_pred_le j2len j _ Hall). lia.
      * intros [|j] Hj; cbn [Difflib.j2lenget_pred]; [lia|].
        rewrite Hnew, lookup_empty.
        case_decide as Hjs; cbn [default from_option id]; [|lia].
        specialize (Hlow j ltac:(lia)). specialize (Hrun j Hjs ltac:(lia)). lia.
Qed.

Lemma scan_inv_rows (n : nat) :
  n ≤ la → scan_inv a b n (foldl (scan_row a b) ((0, 0, 0), ∅) (seq 0 n)).
Proof.
  induction n as [|n IH]; intros Hn.
  - unfold scan_inv. cbn [seq foldl fst snd]. split_and!.
    + done.
    + done.
    + intros i' ?. by assert (i' = 0) as -> by lia.
    + done.
    + intros j. unfold getv. by rewrite lookup_empty.
    + intros j ?. by assert (j = 0) as -> by lia.
  - rewrite seq_S, foldl_app. cbn [foldl]. apply scan_row_inv; [lia|]. apply IH. lia.
Qed.

Lemma elt_eq_diag (i : nat) : i < la → Difflib.elt_eq a b i i = true.
Proof.
  intros Hi. unfold Difflib.elt_eq.
  destruct (lookup_lt_is_Some_2 a i Hi) as [x Hx].
  rewrite Hx, (lookup_a_b i x Hx). by apply bool_decide_eq_true.
Qed.

Lemma extend_left_diag (fuel p s : nat) :
  p ≤ fuel → p ≤ la →
  Difflib.extend_left a b fuel 0 0 (p, p, s) = (0, 0, p + s).
Proof.
  revert p s. induction fuel as [|fuel IH]; intros p s Hp Hla.
  - by assert (p = 0) as -> by lia.
  - simpl. destruct p as [|p]; [done|].
    rewrite !bool_decide_eq_true_2 by lia.
    replace (S p - 1) with p by lia.
    rewrite elt_eq_diag by lia. simpl.
    rewrite IH by lia. f_equal. lia.
Qed.

Lemma extend_right_diag (fuel s : nat) :
  la - s ≤ fuel → s ≤ la →
  Difflib.extend_right a b fuel la lb (0, 0, s) = (0, 0, la).
Proof.
  assert (la ≤ lb) by (unfold la, lb, b; rewrite length_app; lia).
  revert s. induction fuel as [|fuel IH]; intros s Hf Hs.
  - simpl. f_equal. lia.
  - simpl. destruct (decide (s < la)) as [Hlt|Hge].
    + rewrite !bool_decide_eq_true_2 by lia. rewrite elt_eq_diag by done. simpl.
      apply IH; lia.
    + rewrite (bool_decide_eq_false_2 (s < la)) by done. simpl. f_equal. lia.
Qed.

(** The longest match of a list with its extension is the whole list. *)
Lemma find_longest_match_append :
  Difflib.find_longest_match a b 0 la 0 lb = (0, 0, la).
Proof.
  unfold Difflib.find_longest_match. rewrite Nat.sub_0_r.
  change (foldl _ (0, 0, 0, ∅) (seq 0 la))
    with (foldl (scan_row a b) ((0, 0, 0), ∅) (seq 0 la)).
  destruct (scan_inv_rows la (le_n _)) as (Hdiag & Hsum & _).
  destruct (foldl (scan_row a b) _ _) as [[[p q] s] j2len]. simpl in *. subst q.
  rewrite extend_left_diag by lia.
  apply extend_right_diag; lia.
Qed.

End AppendOnly.

Section AppendDiff.
Variables a added : list string.
Hypothesis added_nonempty : added ≠ [].

Lemma length_added_pos : 0 < length added.
Proof using added_nonempty. destruct added; [done|simpl; lia]. Qed.

(** The loop over the queue takes one block and ends with the queue empty,
    whatever fuel is left. *)
Lemma matching_loop_append (fuel : nat) :
  Difflib.matching_loop a (a ++ added) (S fuel)
    [(0, length a, 0, length (a ++ added))] []
  = if decide (length a = 0) then [] else [(0, 0, length a)].
Proof.
  cbn [Difflib.matching_loop]. rewrite (find_longest_match_append a added).
  case_decide as Hla; [by destruct fuel|].
  rewrite decide_False by lia. rewrite decide_False by lia. by destruct fuel.
Qed.

Lemma matching_blocks_append :
  Difflib.get_matching_blocks a (a ++ added)
  = (if decide (length a = 0) then [] else [(0, 0, length a)])
    ++ [(length a, length (a ++ added), 0)].
Proof.
  unfold Difflib.get_matching_blocks.
  replace (2 * length a + 1) with (S (2 * length a)) by lia.
  rewrite matching_loop_append.
  case_decide as Hla; [reflexivity|].
  change (merge_sort Difflib.block_le [(0, 0, length a)]) with [(0, 0, length a)].
  cbn [foldl Difflib.collapse_step].
  rewrite decide_True by done. rewrite Nat.add_0_l.
  by rewrite decide_False by done.
Qed.

Lemma opcodes_append :
  Difflib.get_opcodes a (a ++ added)
  = (if decide (length a = 0) then []
     else [(Difflib.Equal, 0, length a, 0, length a)])
    ++ [(Difflib.Insert, length a, length a, length a, length (a ++ added))].
Proof using added_nonempty.
  pose proof length_added_pos.
  unfold Difflib.get_opcodes. rewrite matching_blocks_append, length_app.
  case_decide as Hla; cbn [app foldl snd].
  - rewrite Hla. repeat case_decide; try lia; done.
  - rewrite !Nat.add_0_l, !Nat.add_0_r.
    repeat case_decide; try lia; done.
Qed.

Lemma grouped_opcodes_append :
  Difflib.get_grouped_opcodes a (a ++ added) 3
  = [(if decide (length a = 0) then []
      else [(Difflib.Equal, length a - 3, length a, length a - 3, length a)])
     ++ [(Difflib.Insert, length a, length a, length a, length (a ++ added))]].
Proof using added_nonempty.
  unfold Difflib.get_grouped_opcodes. rewrite opcodes_append.
  case_decide as Hla; cbn [app Difflib.fix_first Difflib.fix_last foldl].
  - case_decide as Hd; [by destruct Hd|done].
  - rewrite !Nat.max_0_l.
    case_decide as Hd; [lia|]. cbn [app].
    case_decide as Hd'; [by destruct Hd'|done].
Qed.

(** [unified_diff] of a list and its extension: one hunk, with the last
    three lines of the list as context and the new lines added. *)
Lemma unified_diff_append (fromfile tofile : string) :
  Difflib.unified_diff a (a ++ added) fromfile tofile
  = ["--- " +:+ fromfile; "+++ " +:+ tofile;
     "@@ -" +:+ Difflib.format_range_unified (length a - 3) (length a)
     +:+ " +" +:+ Difflib.format_range_unified (length a - 3) (length a + length added)
     +:+ " @@"]
    ++ map (String.append " ") (drop (length a - 3) a)
    ++ map (String.append "+") added.
Proof using added_nonempty.
  unfold Difflib.unified_diff. rewrite grouped_opcodes_append.
  cbn [map concat app]. rewrite app_nil_r. do 2 f_equal.
  unfold Difflib.group_lines, Difflib.slice.
  rewrite length_app.
  assert (take (length a + length added - length a) (drop (length a) (a ++ added))
          = added) as Hadd.
  { rewrite drop_app_length. apply firstn_all2. lia. }
  case_decide as Hla;
    cbn [app head last default from_option id fst snd map concat];
    rewrite Hadd, app_nil_r.
  - apply nil_length_inv in Hla as Hnil. rewrite Hla, Hnil. done.
  - rewrite (firstn_all2 (drop (length a - 3) a)) by (rewrite length_drop; lia).
    done.
Qed.

End AppendDiff.

(** ** Lines without line feed *)

Section NoNewline.

Lemma rstrip_nl_id (s : string) : Spec.no_newline s = true → Py.rstrip_nl s = s.
Proof.
  unfold Spec.no_newline, Py.rstrip_nl.
  induction s as [|c s IH]; simpl; [done|].
  intros [Hc Hs]%andb_true_iff. rewrite (IH Hs).
  apply negb_true_iff in Hc. rewrite Hc. by destruct s.
Qed.

Lemma dist_class_lower_no_newline (c : ascii) :
  GeneratePatch.dist_class c = true → negb (Py.ord (Py.lower_char c) =? 10)%N = true.
Proof. destruct c as [[] [] [] [] [] [] [] []]; vm_compute; done. Qed.

Lemma word_class_dist_class (c : ascii) :
  GeneratePatch.word_class c = true → GeneratePatch.dist_class c = true.
Proof. unfold GeneratePatch.dist_class. by intros ->. Qed.

Lemma header_class_no_newline (c : ascii) :
  GeneratePatch.header_class c = true → negb (Py.ord c =? 10)%N = true.
Proof. destruct c as [[] [] [] [] [] [] [] []]; vm_compute; done. Qed.

Lemma not_linebreak_no_newline (c : ascii) :
  Py.is_linebreak c = false → negb (Py.ord c =? 10)%N = true.
Proof. destruct c as [[] [] [] [] [] [] [] []]; vm_compute; done. Qed.

Lemma lower_dist_no_newline (c : string) :
  Py.str_forallb GeneratePatch.dist_class c = true →
  Spec.no_newline (Py.lower c) = true.
Proof.
  unfold Spec.no_newline, Py.lower. rewrite str_forallb_map.
  apply str_forallb_impl. intros a. apply dist_class_lower_no_newline.
Qed.

(** A module name of the list is a lower-cased capture of one of the
    three patterns, and holds no line feed. *)
Lemma missing_list_no_newline (logs : string) :
  Forall (λ m, Spec.no_newline m = true) (GeneratePatch.missing_list logs).
Proof.
  apply Forall_forall. intros m Hm.
  apply sorted_spec in Hm. unfold GeneratePatch.missing in Hm.
  rewrite !add_all_union in Hm.
  assert (∃ c s1 j cls, m = Py.lower c ∧ c = Py.take_chars j s1
                        ∧ j ≤ Re.run_length cls s1
                        ∧ ∀ x, cls x = true → GeneratePatch.dist_class x = true)
    as (c & s1 & j & cls & -> & -> & Hj & Hcls).
  { rewrite !elem_of_union, !elem_of_list_to_set, !list_elem_of_fmap in Hm.
    destruct Hm as [[[[]%elem_of_empty|(c & -> & Hc)]|(c & -> & Hc)]|(c & -> & Hc)];
      apply findall_from_elem in Hc as (s' & n & Hc);
      apply match_here_group_plus in Hc as (s1 & j & _ & ? & ->); eauto;
      exists (Py.take_chars j s1), s1, j.
    - exists GeneratePatch.word_class. split_and!; try done; try lia.
      apply word_class_dist_class.
    - exists GeneratePatch.word_class. split_and!; try done; try lia.
      apply word_class_dist_class.
    - exists GeneratePatch.dist_class. split_and!; try done; lia. }
  apply lower_dist_no_newline.
  eapply str_forallb_impl; [exact Hcls|]. by apply forallb_take_run.
Qed.

Lemma take_chars_add (j n : nat) (s : string) :
  j ≤ String.length s →
  Py.take_chars (j + n) s = Py.take_chars j s +:+ Py.take_chars n (Py.drop_chars j s).
Proof.
  revert s. induction j as [|j IH]; intros s Hj; simpl.
  - by destruct n, s.
  - destruct s as [|c s]; simpl in *; [lia|].
    rewrite app_String, IH by lia. done.
Qed.

Lemma run_length_le (cls : ascii → bool) (s : string) :
  Re.run_length cls s ≤ String.length s.
Proof. induction s as [|c s IH]; simpl; [done|]. destruct (cls c); lia. Qed.

(** A captured header path is a run of path characters followed by
    [.h]. *)
Lemma match_here_header (s c : string) (n : nat) :
  Re.match_here GeneratePatch.missing_header_re s = Some (c, n) →
  Spec.no_newline c = true.
Proof.
  unfold Re.match_here, GeneratePatch.missing_header_re. cbn [Re.match_items].
  destruct (Py.strip_prefix "fatal error: " s) as [s1|] eqn:Hs; [|done].
  apply strip_prefix_Some in Hs as ->.
  destruct (Re.try_lengths _ _) as [[[gs ge] len]|] eqn:Ht; [|done].
  apply try_lengths_Some in Ht as (j & Hj & Hk).
  destruct (Py.strip_prefix ".h" (Py.drop_chars j s1)) as [s2|] eqn:Hh; [|done].
  destruct (Py.strip_prefix ": No such file or directory" s2); [|done].
  injection Hk as <- <- <-. intros [= <- <-].
  change ("" +:+ s1) with s1. rewrite Nat.sub_0_r.
  pose proof (run_length_le GeneratePatch.header_class s1).
  rewrite take_chars_add by lia.
  apply strip_prefix_Some in Hh. rewrite Hh.
  change (Py.take_chars 2 (".h" +:+ s2)) with ".h".
  unfold Spec.no_newline. rewrite str_forallb_app, andb_true_iff. split; [|done].
  eapply str_forallb_impl; [apply header_class_no_newline|].
  apply forallb_take_run. lia.
Qed.

Lemma missing_headers_no_newline (logs : string) :
  Forall (λ h, Spec.no_newline h = true) (GeneratePatch.missing_headers logs).
Proof.
  apply Forall_forall. intros h Hh.
  destruct (headers_loop (Re.findall GeneratePatch.missing_header_re logs) []
              (NoDup_nil_2 : NoDup [])) as (_ & _ & Hel & _).
  apply Hel in Hh as [[]%elem_of_nil|Hh].
  apply findall_from_elem in Hh as (s' & n & Hm). by eapply match_here_header.
Qed.

Lemma splitlines_no_newline_bounded (n : nat) (s : string) :
  String.length s ≤ n →
  Forall (λ l, Spec.no_newline l = true) (Py.splitlines s).
Proof.
  revert s. induction n as [|n IH]; intros s Hn.
  - destruct s; [constructor|simpl in Hn; lia].
  - destruct s as [|c s]; [constructor|]. simpl in Hn. cbn [Py.splitlines].
    destruct (Py.is_linebreak c) eqn:Hc.
    + destruct s as [|c' s]; [by repeat constructor|].
      simpl in Hn.
      destruct (_ && _); (constructor; [done|]); apply IH; simpl; lia.
    + pose proof (IH s ltac:(lia)) as Hs.
      destruct (Py.splitlines s) as [|l ls].
      * repeat constructor. unfold Spec.no_newline. simpl.
        by rewrite not_linebreak_no_newline.
      * inversion Hs as [|?? Hl Hls]; subst. constructor; [|done].
        unfold Spec.no_newline in *. simpl.
        by rewrite not_linebreak_no_newline.
Qed.

Lemma splitlines_no_newline (s : string) :
  Forall (λ l, Spec.no_newline l = true) (Py.splitlines s).
Proof. by apply (splitlines_no_newline_bounded (String.length s)). Qed.

End NoNewline.

(** ** Fragments of the patch *)

Section Fragments.

Lemma range_text_format (start stop : nat) :
  Spec.range_text (Difflib.format_range_unified start stop) (stop - start).
Proof.
  unfold Difflib.format_range_unified, Spec.range_text.
  case_decide as H1; [exists (start + 1); by right|].
  case_decide as H0.
  - exists (start + 1 - 1). left. by rewrite H0.
  - exists (start + 1). by left.
Qed.

Lemma make_new_file_diff_render (path : option string) (rel : string)
    (lines : list string) :
  Forall (λ l, Spec.no_newline l = true) lines →
  GeneratePatch.make_new_file_diff path rel lines
  = Spec.render (Spec.new_file_fragment rel lines).
Proof.
  intros Hl.
  assert (map (λ line, "+" +:+ Py.rstrip_nl line) lines
          = map Spec.render_line (map Spec.Added lines)) as Hmap.
  { rewrite map_map. apply Forall_fmap_ext_1.
    eapply Forall_impl; [exact Hl|]. intros l ?. cbn. by rewrite rstrip_nl_id. }
  unfold GeneratePatch.make_new_file_diff, Spec.render. cbv zeta.
  by rewrite Hmap.
Qed.

Lemma make_update_file_diff_render (path rel : string) (old added : list string) :
  added ≠ [] →
  GeneratePatch.make_update_file_diff path rel old (old ++ added)
  = Spec.render (Spec.update_fragment rel old added).
Proof.
  intros Ha. unfold GeneratePatch.make_update_file_diff, Spec.render.
  rewrite unified_diff_append by done. cbn [Spec.update_fragment Spec.body
    Spec.from_file Spec.to_file Spec.old_range Spec.new_range].
  by rewrite map_app, !map_map.
Qed.

Lemma filter_in_old_added (lines : list string) :
  filter (λ l, Spec.in_old l = true) (map Spec.Added lines) = [].
Proof.
  induction lines as [|l ls IH]; [done|]. cbn [map].
  by rewrite filter_cons_False.
Qed.

Lemma filter_true_all (f : Spec.hunk_line → bool) (l : list Spec.hunk_line) :
  Forall (λ x, f x = true) l → filter (λ x, f x = true) l = l.
Proof.
  induction 1 as [|x l Hx Hl IH]; [done|]. by rewrite filter_cons_True, IH.
Qed.

Lemma no_newline_line_text (mk : string → Spec.hunk_line) (lines : list string) :
  (∀ s, Spec.line_text (mk s) = s) →
  Forall (λ l, Spec.no_newline l = true) lines →
  Forall (λ l, Spec.no_newline (Spec.line_text l) = true) (map mk lines).
Proof.
  intros Hmk Hl. apply Forall_fmap. eapply Forall_impl; [exact Hl|].
  intros l ?. cbn. by rewrite Hmk.
Qed.

Lemma new_file_fragment_well_formed (rel : string) (lines : list string) :
  Spec.no_newline rel = true →
  Forall (λ l, Spec.no_newline l = true) lines →
  Spec.well_formed (Spec.new_file_fragment rel lines).
Proof.
  intros Hrel Hl. unfold Spec.well_formed, Spec.new_file_fragment. cbn.
  rewrite filter_in_old_added.
  rewrite filter_true_all by (apply Forall_fmap, Forall_true; done).
  rewrite length_map. split_and!.
  - exists 0. by left.
  - exists 1. by left.
  - by apply no_newline_line_text.
  - done.
  - done.
Qed.

Lemma new_file_fragment_style (rel : string) (lines : list string) :
  Spec.new_file_style rel (Spec.new_file_fragment rel lines).
Proof.
  unfold Spec.new_file_style. cbn. split_and!; try done.
  apply Forall_fmap, Forall_true. done.
Qed.

Lemma update_fragment_well_formed (rel : string) (old added : list string) :
  Spec.no_newline rel = true →
  Forall (λ l, Spec.no_newline l = true) old →
  Forall (λ l, Spec.no_newline l = true) added →
  Spec.well_formed (Spec.update_fragment rel old added).
Proof.
  intros Hrel Hold Hadd. unfold Spec.well_formed, Spec.update_fragment. cbn.
  rewrite !filter_app, filter_in_old_added, app_nil_r.
  rewrite !filter_true_all by (apply Forall_fmap, Forall_true; done).
  rewrite length_app, !length_map, length_drop.
  split_and!.
  - replace (length old - (length old - 3)) with (length old - (length old - 3))
      by done. apply range_text_format.
  - replace (length old - (length old - 3) + length added)
      with (length old + length added - (length old - 3)) by lia.
    apply range_text_format.
  - apply Forall_app. split; apply no_newline_line_text; try done.
    by apply Forall_drop.
  - done.
  - done.
Qed.

End Fragments.

(** ** The writers and the heuristic run *)

Section Writers.

Lemma read_text_file (fs : gmap string Os.node) (p s : string) :
  fs !! p = Some (Os.File s) → Os.read_text fs p = Some (Py.universal_newlines s).
Proof. intros H. unfold Os.read_text. by rewrite H. Qed.

Lemma read_text_Some (fs : gmap string Os.node) (p text : string) :
  Os.read_text fs p = Some text →
  ∃ s, fs !! p = Some (Os.File s) ∧ text = Py.universal_newlines s.
Proof.
  unfold Os.read_text. destruct (fs !! p) as [[s|]|]; [|done..].
  intros [= <-]. by exists s.
Qed.

Lemma path_exists_true (fs : gmap string Os.node) (p : string) (n : Os.node) :
  fs !! p = Some n → Os.path_exists fs p = true.
Proof. intros H. unfold Os.path_exists. rewrite H. by apply bool_decide_eq_true_2. Qed.

Lemma path_exists_false (fs : gmap string Os.node) (p : string) :
  fs !! p = None → Os.path_exists fs p = false.
Proof.
  intros H. unfold Os.path_exists. rewrite H.
  by apply bool_decide_eq_false_2, is_Some_None.
Qed.

Lemma path_exists_read (fs : gmap string Os.node) (p : string) :
  is_Some (Os.read_text fs p) → Os.path_exists fs p = true.
Proof. intros [text (s & H & _)%read_text_Some]. by eapply path_exists_true. Qed.

Lemma remove_if_exists (fs : gmap string Os.node) (p : string) :
  (if Os.path_exists fs p then Os.remove fs p else Some fs)
  = if bool_decide (fs !! p = Some Os.Dir) then None else Some (delete p fs).
Proof.
  unfold Os.path_exists, Os.remove. destruct (fs !! p) as [[s|]|] eqn:H.
  - by rewrite bool_decide_eq_true_2, bool_decide_eq_false_2.
  - by rewrite !bool_decide_eq_true_2.
  - rewrite !bool_decide_eq_false_2 by (done || apply is_Some_None).
    by rewrite delete_id.
Qed.

(** Of what exists, only a directory cannot be read. *)
Lemma unreadable_dir (fs : gmap string Os.node) (p : string) :
  (Os.path_exists fs p = true → is_Some (Os.read_text fs p)) ↔ fs !! p ≠ Some Os.Dir.
Proof.
  unfold Os.path_exists, Os.read_text. destruct (fs !! p) as [[s|]|].
  - split; [done|]. by eauto.
  - split; [|done]. intros H. destruct H as [? ?]; [|done].
    by apply bool_decide_eq_true_2.
  - split; [done|]. intros _ H. apply bool_decide_eq_true_1 in H.
    by destruct H.
Qed.

Lemma write_text_Some (fs : gmap string Os.node) (p s : string) :
  fs !! p ≠ Some Os.Dir → Os.write_text fs p s = Some (<[p := Os.File s]> fs).
Proof. intros H. unfold Os.write_text. by destruct (fs !! p) as [[]|]. Qed.

Lemma write_text_dir (fs : gmap string Os.node) (p s : string) :
  fs !! p = Some Os.Dir → Os.write_text fs p s = None.
Proof. intros H. unfold Os.write_text. by rewrite H. Qed.

Lemma append_text_fresh (fs : gmap string Os.node) (p s : string) :
  fs !! p = None → Os.append_text fs p s = Some (<[p := Os.File s]> fs).
Proof. intros H. unfold Os.append_text. by rewrite H. Qed.

Lemma append_text_insert (fs : gmap string Os.node) (p s1 s2 : string) :
  Os.append_text (<[p := Os.File s1]> fs) p s2 = Some (<[p := Os.File (s1 +:+ s2)]> fs).
Proof.
  unfold Os.append_text. rewrite lookup_insert_eq. by rewrite insert_insert_eq.
Qed.

(** [write_requirements_patch] raises when there are modules to add and
    the dependency list is a directory; otherwise it emits its fragment. *)
Lemma write_requirements_patch_emit (out_path repo_root : string)
    (missing_modules : list string) (fs : gmap string Os.node) :
  Forall (λ m, Spec.no_newline m = true) missing_modules →
  GeneratePatch.write_requirements_patch out_path repo_root missing_modules fs
  = if bool_decide (missing_modules ≠ []
                    ∧ fs !! Os.path_join repo_root "requirements.txt" = Some Os.Dir)
    then None
    else Spec.emit fs out_path (Spec.requirements_fragment repo_root missing_modules fs).
Proof.
  intros Hm. unfold GeneratePatch.write_requirements_patch, Spec.requirements_fragment.
  destruct missing_modules as [|m ms] eqn:Heq.
  { by rewrite bool_decide_eq_false_2 by (by intros [? _]). }
  rewrite <-Heq in *. cbv zeta.
  destruct (fs !! Os.path_join repo_root "requirements.txt") as [[s|]|] eqn:Hreq.
  - rewrite bool_decide_eq_false_2 by (by intros [_ ?]).
    rewrite (path_exists_true _ _ _ Hreq), (read_text_file _ _ _ Hreq).
    cbn [mbind option_bind].
    destruct (GeneratePatch.added _ missing_modules) as [|x xs] eqn:Ha; [done|].
    cbn [Spec.emit]. by rewrite make_update_file_diff_render.
  - rewrite bool_decide_eq_true_2 by (by subst).
    rewrite (path_exists_true _ _ _ Hreq). unfold Os.read_text. by rewrite Hreq.
  - rewrite bool_decide_eq_false_2 by (by intros [_ ?]).
    rewrite (path_exists_false _ _ Hreq). cbn [Spec.emit].
    by rewrite make_new_file_diff_render.
Qed.

Lemma write_system_deps_patch_emit (out_path repo_root : string)
    (missing_headers : list string) (fs : gmap string Os.node) :
  Forall (λ h, Spec.no_newline h = true) missing_headers →
  GeneratePatch.write_system_deps_patch out_path repo_root missing_headers fs
  = Spec.emit fs out_path (Spec.system_deps_fragment missing_headers).
Proof.
  intros Hh. unfold GeneratePatch.write_system_deps_patch, Spec.system_deps_fragment.
  destruct missing_headers as [|h hs] eqn:Heq; [done|]. rewrite <-Heq in *.
  cbn [Spec.emit]. rewrite make_new_file_diff_render; [done|].
  by constructor.
Qed.

Lemma notice_diff_render :
  GeneratePatch.make_new_file_diff None ".fixbot_notice.txt" GeneratePatch.notice_lines
  = Spec.render Spec.notice_fragment.
Proof. apply make_new_file_diff_render. by repeat constructor. Qed.

Lemma requirements_fragment_well_formed (repo_root : string)
    (missing_modules : list string) (fs : gmap string Os.node) (f : Spec.fragment) :
  Forall (λ m, Spec.no_newline m = true) missing_modules →
  Spec.requirements_fragment repo_root missing_modules fs = Some f →
  Spec.well_formed f.
Proof.
  intros Hm. unfold Spec.requirements_fragment.
  destruct missing_modules as [|m ms] eqn:Heq; [done|]. rewrite <-Heq in *. cbv zeta.
  destruct (Os.path_exists fs _).
  - destruct (Os.read_text fs _) as [text|]; [|done]. cbn [mbind option_bind].
    destruct (GeneratePatch.added _ _) as [|x xs] eqn:Ha; [done|].
    intros [= <-]. apply update_fragment_well_formed; [done|apply splitlines_no_newline|].
    rewrite <-Ha. unfold GeneratePatch.added.
    apply Forall_forall. intros x' [_ Hx']%list_elem_of_filter.
    by eapply Forall_forall in Hm.
  - intros [= <-]. by apply new_file_fragment_well_formed.
Qed.

Lemma system_deps_fragment_well_formed (missing_headers : list string)
    (f : Spec.fragment) :
  Forall (λ h, Spec.no_newline h = true) missing_headers →
  Spec.system_deps_fragment missing_headers = Some f →
  Spec.well_formed f.
Proof.
  intros Hh. unfold Spec.system_deps_fragment.
  destruct missing_headers as [|h hs] eqn:Heq; [done|]. rewrite <-Heq in *.
  intros [= <-]. apply new_file_fragment_well_formed; [done|]. by constructor.
Qed.

Lemma fragments_well_formed (logs repo_root : string) (fs : gmap string Os.node) :
  Spec.fragments logs repo_root fs ≠ []
  ∧ Forall Spec.well_formed (Spec.fragments logs repo_root fs).
Proof.
  unfold Spec.fragments.
  pose proof (λ f, requirements_fragment_well_formed repo_root _ fs f
                (missing_list_no_newline logs)) as Hr.
  pose proof (λ f, system_deps_fragment_well_formed _ f
                (missing_headers_no_newline logs)) as Hs.
  destruct (Spec.requirements_fragment _ _ _) as [f1|];
    destruct (Spec.system_deps_fragment _) as [f2|];
    cbn [option_list from_option app];
    (split; [done|]); repeat apply Forall_cons_2; try apply Forall_nil_2; auto.
  apply new_file_fragment_well_formed; [done|]. by repeat constructor.
Qed.

(** What the writers and the notice leave in a fresh output file: the
    fragments, one after the other. *)
Lemma emit_fragments (logs repo_root out_path : string) (fs1 : gmap string Os.node) :
  fs1 !! out_path = None →
  match Spec.emit fs1 out_path
          (Spec.requirements_fragment repo_root (GeneratePatch.missing_list logs) fs1) with
  | None => GeneratePatch.Raised fs1
  | Some (w, fs) =>
      let wrote_any := w || false in
      match Spec.emit fs out_path
              (Spec.system_deps_fragment (GeneratePatch.missing_headers logs)) with
      | None => GeneratePatch.Raised fs
      | Some (w, fs) =>
          let wrote_any := w || wrote_any in
          if wrote_any then GeneratePatch.Returned fs
          else
            let diff :=
              GeneratePatch.make_new_file_diff None ".fixbot_notice.txt"
                GeneratePatch.notice_lines in
            match Os.append_text fs out_path diff with
            | None => GeneratePatch.Raised fs
            | Some fs => GeneratePatch.Returned fs
            end
      end
  end
  = GeneratePatch.Returned
      (<[out_path := Os.File (Spec.render_all (Spec.fragments logs repo_root fs1))]> fs1).
Proof.
  intros Hout. unfold Spec.fragments.
  destruct (Spec.requirements_fragment _ _ _) as [f1|]; cbn [Spec.emit];
    destruct (Spec.system_deps_fragment _) as [f2|]; cbn [Spec.emit].
  - rewrite (append_text_fresh fs1) by done. cbn [mbind option_bind].
    rewrite append_text_insert. cbn [mbind option_bind orb].
    change (Spec.render_all _) with (Spec.render f1 +:+ Spec.render f2 +:+ "").
    by rewrite app_empty_r.
  - rewrite (append_text_fresh fs1) by done. cbn [mbind option_bind orb].
    change (Spec.render_all _) with (Spec.render f1 +:+ "").
    by rewrite app_empty_r.
  - rewrite (append_text_fresh fs1) by done. cbn [mbind option_bind orb].
    change (Spec.render_all _) with (Spec.render f2 +:+ "").
    by rewrite app_empty_r.
  - cbn [orb]. cbv zeta. rewrite (append_text_fresh fs1) by done.
    change (Spec.render_all _) with (Spec.render Spec.notice_fragment +:+ "").
    by rewrite notice_diff_render, app_empty_r.
Qed.

(** The heuristic run in full.  It raises before any change when the log
    cannot be read and when the output path is a directory; it raises after
    removing the output file when modules are missing and the dependency list
    is a directory; otherwise it replaces the output file by its fragments,
    one after the other, and touches no other file. *)
Lemma heuristics_make_patch_cases (logs_path repo_root out_path : string)
    (fs : gmap string Os.node) :
  GeneratePatch.heuristics_make_patch logs_path repo_root out_path fs
  = match Os.read_text fs logs_path with
    | None => GeneratePatch.Raised fs
    | Some logs =>
        if bool_decide (fs !! out_path = Some Os.Dir) then GeneratePatch.Raised fs
        else if bool_decide
                  (GeneratePatch.missing_list logs ≠ []
                   ∧ delete out_path fs !! Os.path_join repo_root "requirements.txt"
                     = Some Os.Dir)
        then GeneratePatch.Raised (delete out_path fs)
        else GeneratePatch.Returned
               (<[out_path := Os.File (Spec.render_all
                                         (Spec.fragments logs repo_root
                                            (delete out_path fs)))]>
                  (delete out_path fs))
    end.
Proof.
  unfold GeneratePatch.heuristics_make_patch.
  destruct (Os.read_text fs logs_path) as [logs|]; [|done]. cbv zeta.
  rewrite remove_if_exists. case_bool_decide as Hdir; [done|].
  set (fs1 := delete out_path fs).
  assert (fs1 !! out_path = None) as Hout by apply lookup_delete_eq.
  rewrite write_requirements_patch_emit by apply missing_list_no_newline.
  case_bool_decide as Hreq; [done|].
  rewrite <-(emit_fragments logs repo_root out_path fs1 Hout).
  destruct (Spec.emit fs1 _ _) as [[w fs2]|]; [|done].
  by rewrite write_system_deps_patch_emit by apply missing_headers_no_newline.
Qed.

Lemma heuristics_make_patch_fragments (logs_path repo_root out_path logs : string)
    (fs : gmap string Os.node) :
  Os.read_text fs logs_path = Some logs →
  fs !! out_path ≠ Some Os.Dir →
  (GeneratePatch.missing_list logs ≠ [] →
   fs !! Os.path_join repo_root "requirements.txt" ≠ Some Os.Dir) →
  GeneratePatch.heuristics_make_patch logs_path repo_root out_path fs
  = GeneratePatch.Returned
      (<[out_path := Os.File (Spec.render_all
                                (Spec.fragments logs repo_root (delete out_path fs)))]>
         (delete out_path fs)).
Proof.
  intros Hlogs Hout Hreq. rewrite heuristics_make_patch_cases, Hlogs.
  rewrite bool_decide_eq_false_2 by done.
  rewrite bool_decide_eq_false_2; [done|].
  intros [Hne [_ Hdir]%lookup_delete_Some]. by apply Hreq.
Qed.

(** The [try] block writes the answer, if there is one and the output path
    is no directory. *)
Lemma openai_patch_answer (openai_key : option string)
    (completion : string → option string) (a : GeneratePatch.args)
    (fs : gmap string Os.node) :
  GeneratePatch.openai_patch openai_key completion a fs
  = (p ← Spec.answer openai_key completion (Os.read_text fs (GeneratePatch.logs a));
     fs' ← Os.write_text fs (GeneratePatch.out a) p;
     Some (p, fs')).
Proof.
  unfold GeneratePatch.openai_patch, Spec.answer.
  destruct (Py.truthy openai_key); [|done].
  destruct (Os.read_text fs _) as [text|]; [|done]. cbn [mbind option_bind].
  destruct (completion _) as [t|]; [|done]. cbn [mbind option_bind].
  by destruct (Py.truthy (Some (Py.strip t))).
Qed.

(** A second run, on the files the first one left, changes nothing when
    it reads the same log. *)
Lemma main_rerun (openai_key : option string) (completion : string → option string)
    (a : GeneratePatch.args) (fs : gmap string Os.node) :
  let o1 := GeneratePatch.main openai_key completion a fs in
  Os.read_text (GeneratePatch.files o1) (GeneratePatch.logs a)
  = Os.read_text fs (GeneratePatch.logs a) →
  GeneratePatch.main openai_key completion a (GeneratePatch.files o1) = o1.
Proof.
  intros o1. assert (o1 = GeneratePatch.main openai_key completion a fs) as Ho1 by done.
  clearbody o1. unfold GeneratePatch.main in *.
  rewrite openai_patch_answer, heuristics_make_patch_cases in Ho1.
  rewrite openai_patch_answer, heuristics_make_patch_cases.
  set (out := GeneratePatch.out a) in *. set (logs := GeneratePatch.logs a) in *.
  destruct (Spec.answer openai_key completion (Os.read_text fs logs)) as [p|] eqn:Hans;
    cbn [mbind option_bind] in Ho1.
  - unfold Os.write_text in Ho1 at 1.
    destruct (fs !! out) as [[s|]|] eqn:Hout; cbn [mbind option_bind] in Ho1.
    + subst o1. cbn [GeneratePatch.files]. intros Hsame. rewrite Hsame. rewrite Hans.
      cbn [mbind option_bind].
      rewrite write_text_Some by (by rewrite lookup_insert_eq).
      cbn [mbind option_bind]. by rewrite insert_insert_eq.
    + assert (o1 = {| GeneratePatch.exit_code := 1; GeneratePatch.stdout := [];
                      GeneratePatch.files := fs |}) as ->.
      { destruct (Os.read_text fs logs); [|done].
        by rewrite bool_decide_eq_true_2 in Ho1. }
      cbn [GeneratePatch.files]. intros _. rewrite Hans. cbn [mbind option_bind].
      rewrite (write_text_dir _ _ _ Hout). cbn [mbind option_bind].
      destruct (Os.read_text fs logs); [|done].
      by rewrite bool_decide_eq_true_2.
    + subst o1. cbn [GeneratePatch.files]. intros Hsame. rewrite Hsame. rewrite Hans.
      cbn [mbind option_bind].
      rewrite write_text_Some by (by rewrite lookup_insert_eq).
      cbn [mbind option_bind]. by rewrite insert_insert_eq.
  - destruct (Os.read_text fs logs) as [text|] eqn:Hl.
    + case_bool_decide as Hdir.
      { subst o1. cbn [GeneratePatch.files]. intros _. rewrite ?Hl, Hans.
        cbn [mbind option_bind]. by rewrite bool_decide_eq_true_2. }
      case_bool_decide as Hreq; subst o1; cbn [GeneratePatch.files].
      * intros Hsame. rewrite Hsame. rewrite Hans. cbn [mbind option_bind].
        rewrite delete_delete_eq.
        rewrite bool_decide_eq_false_2 by (by rewrite lookup_delete_eq).
        by rewrite bool_decide_eq_true_2.
      * intros Hsame. rewrite Hsame. rewrite Hans. cbn [mbind option_bind].
        rewrite delete_insert_eq, delete_delete_eq.
        rewrite bool_decide_eq_false_2 by (by rewrite lookup_insert_eq).
        by rewrite bool_decide_eq_false_2.
    + subst o1. cbn [GeneratePatch.files]. intros _. by rewrite ?Hl, Hans.
Qed.

End Writers.

(** ** The patch generator *)

Section NoSignature.

Lemma missing_list_nil (logs : string) :
  Re.findall GeneratePatch.module_not_found_re logs = [] →
  Re.findall GeneratePatch.import_error_re logs = [] →
  Re.findall GeneratePatch.no_distribution_re logs = [] →
  GeneratePatch.missing_list logs = [].
Proof.
  intros H1 H2 H3.
  destruct (GeneratePatch.missing_list logs) as [|m ms] eqn:Hm; [done|].
  assert (m ∈ GeneratePatch.missing logs) as Hin.
  { apply sorted_spec. fold (GeneratePatch.missing_list logs). rewrite Hm. by left. }
  unfold GeneratePatch.missing in Hin. rewrite H1, H2, H3 in Hin.
  by apply elem_of_empty in Hin.
Qed.

Lemma missing_headers_nil (logs : string) :
  Re.findall GeneratePatch.missing_header_re logs = [] →
  GeneratePatch.missing_headers logs = [].
Proof. intros H. unfold GeneratePatch.missing_headers. by rewrite H. Qed.

Lemma render_starts_with_dash (f : Spec.fragment) (rest : string) :
  ∃ s, Spec.render f +:+ rest = String "-"%char s.
Proof. unfold Spec.render. cbn [Py.join]. destruct (map _ _); cbn; eauto. Qed.

End NoSignature.

(** C1, as the code has it.  When the log file can be read, the output
    path is no directory and [requirements.txt] under the repository root, if
    it exists, can be read, the generator exits with status 0 and leaves a
    file at the output path.  When the completion service gave a non-empty answer, the
    file is that answer, stripped, as it came.  Otherwise the file is in
    unified diff format: well-formed fragments one after the other, at least
    one; and when no pattern matches the log, it is the fragment that creates
    the notice file.  When the log file cannot be read, the generator ends
    with status 1, prints nothing and changes no file. *)
Theorem generator_exit_and_format (openai_key : option string)
    (completion : string → option string) (a : GeneratePatch.args)
    (fs : gmap string Os.node) :
  let o := GeneratePatch.main openai_key completion a fs in
  let req_path := Os.path_join (GeneratePatch.repo_root a) "requirements.txt" in
  match Os.read_text fs (GeneratePatch.logs a) with
  | Some logs =>
      fs !! GeneratePatch.out a ≠ Some Os.Dir →
      (Os.path_exists fs req_path = true → is_Some (Os.read_text fs req_path)) →
      GeneratePatch.exit_code o = 0
      ∧ match GeneratePatch.openai_patch openai_key completion a fs with
        | Some (patch_text, _) =>
            GeneratePatch.files o !! GeneratePatch.out a = Some (Os.File patch_text)
        | None =>
            ∃ patch,
              GeneratePatch.files o !! GeneratePatch.out a = Some (Os.File patch)
              ∧ Spec.unified_diff_formatted patch
              ∧ (Re.findall GeneratePatch.module_not_found_re logs = [] →
                 Re.findall GeneratePatch.import_error_re logs = [] →
                 Re.findall GeneratePatch.no_distribution_re logs = [] →
                 Re.findall GeneratePatch.missing_header_re logs = [] →
                 patch = GeneratePatch.make_new_file_diff None ".fixbot_notice.txt"
                           GeneratePatch.notice_lines)
        end
  | None =>
      GeneratePatch.exit_code o = 1 ∧ GeneratePatch.stdout o = []
      ∧ GeneratePatch.files o = fs
  end.
Proof.
  intros o req_path. subst o req_path. unfold GeneratePatch.main.
  destruct (Os.read_text fs (GeneratePatch.logs a)) as [logs|] eqn:Hlogs.
  - intros Hout Hreq%unreadable_dir. rewrite openai_patch_answer, Hlogs.
    destruct (Spec.answer _ _ _) as [p|]; cbn [mbind option_bind].
    + rewrite write_text_Some by done. cbn [mbind option_bind].
      split; [done|]. cbn. apply lookup_insert_eq.
    + rewrite (heuristics_make_patch_fragments _ _ _ logs) by auto.
      split; [done|]. cbn [GeneratePatch.files].
      eexists. split; [apply lookup_insert_eq|]. split.
      * destruct (fragments_well_formed logs (GeneratePatch.repo_root a)
                    (delete (GeneratePatch.out a) fs)) as [??].
        by eexists.
      * intros H1 H2 H3 H4.
        unfold Spec.fragments, Spec.requirements_fragment.
        rewrite missing_list_nil, missing_headers_nil by done.
        change (Spec.render_all _) with (Spec.render Spec.notice_fragment +:+ "").
        by rewrite app_empty_r, notice_diff_render.
  - rewrite openai_patch_answer, heuristics_make_patch_cases, Hlogs.
    unfold Spec.answer. by destruct (Py.truthy openai_key).
Qed.

(** The witness: a log with a missing module, no completion service. *)
Lemma generator_exit_and_format_witness :
  GeneratePatch.exit_code
    (GeneratePatch.main None (λ _, None)
       {| GeneratePatch.logs := "ci.log"; GeneratePatch.repo_root := ".";
          GeneratePatch.out := "fix.patch" |}
       {["ci.log" := Os.File "ImportError: No module named yaml"]}) = 0.
Proof.
  refine (proj1 (generator_exit_and_format None (λ _, None)
                   {| GeneratePatch.logs := "ci.log"; GeneratePatch.repo_root := ".";
                      GeneratePatch.out := "fix.patch" |}
                   {["ci.log" := Os.File "ImportError: No module named yaml"]} _ _));
    [discriminate|intros H; by vm_compute in H].
Defined.

(** C1 as the specification words it fails in two ways.  With no log file
    at the given path the generator ends on the exception of [open]: status 1
    and no output file.  And what the completion service answers is written
    as it is, unified diff or not. *)
Lemma generator_missing_log_crashes :
  let a := {| GeneratePatch.logs := "ci.log"; GeneratePatch.repo_root := ".";
              GeneratePatch.out := "fix.patch" |} in
  (let o := GeneratePatch.main None (λ _, None) a ∅ in
   GeneratePatch.exit_code o = 1 ∧ GeneratePatch.files o !! "fix.patch" = None)
  ∧ (let o := GeneratePatch.main (Some "key") (λ _, Some "no idea") a
                {["ci.log" := Os.File "boom"]} in
     GeneratePatch.exit_code o = 0
     ∧ GeneratePatch.files o !! "fix.patch" = Some (Os.File "no idea")
     ∧ ¬ Spec.unified_diff_formatted "no idea").
Proof.
  split; [by vm_compute|]. split; [by vm_compute|]. split; [by vm_compute|].
  intros ([|f fs] & Hne & _ & Heq); [done|].
  cbn [Spec.render_all] in Heq.
  destruct (render_starts_with_dash f (Spec.render_all fs)) as [s Hs].
  rewrite Hs in Heq. discriminate.
Qed.

(** The two hypotheses of C1 on directories are needed.  With a module
    missing and a directory at [requirements.txt], [os.path.exists] holds
    and the [open] after it raises: the run ends with status 1, after it
    removed the stale output file.  With a directory at the output path,
    [os.remove] raises. *)
Lemma generator_directory_crashes :
  let a := {| GeneratePatch.logs := "ci.log"; GeneratePatch.repo_root := ".";
              GeneratePatch.out := "fix.patch" |} in
  (let fs : gmap string Os.node :=
     {["ci.log" := Os.File "ImportError: No module named yaml";
       "./requirements.txt" := Os.Dir;
       "fix.patch" := Os.File "stale"]} in
   let o := GeneratePatch.main None (λ _, None) a fs in
   GeneratePatch.exit_code o = 1 ∧ GeneratePatch.files o !! "fix.patch" = None)
  ∧ (let fs : gmap string Os.node :=
       {["ci.log" := Os.File "ImportError: No module named yaml";
         "fix.patch" := Os.Dir]} in
     let o := GeneratePatch.main None (λ _, None) a fs in
     GeneratePatch.exit_code o = 1
     ∧ GeneratePatch.files o !! "fix.patch" = Some Os.Dir).
Proof.
  split; split; by vm_compute.
Qed.

(** C7.  With no dependency list under the repository root, a second run of
    the generator with the same arguments, the same completion service and
    the same log leaves the same output file as the first one, with the
    same exit status. *)
Theorem generator_idempotent (openai_key : option string)
    (completion : string → option string) (a : GeneratePatch.args)
    (fs : gmap string Os.node) :
  let o1 := GeneratePatch.main openai_key completion a fs in
  let o2 := GeneratePatch.main openai_key completion a (GeneratePatch.files o1) in
  fs !! Os.path_join (GeneratePatch.repo_root a) "requirements.txt" = None →
  Os.read_text (GeneratePatch.files o1) (GeneratePatch.logs a)
  = Os.read_text fs (GeneratePatch.logs a) →
  GeneratePatch.files o2 !! GeneratePatch.out a
  = GeneratePatch.files o1 !! GeneratePatch.out a
  ∧ GeneratePatch.exit_code o2 = GeneratePatch.exit_code o1
  ∧ GeneratePatch.stdout o2 = GeneratePatch.stdout o1.
Proof.
  intros o1 o2 _ Hlogs. subst o1 o2.
  by rewrite (main_rerun openai_key completion a fs Hlogs).
Qed.

(** The witness: two runs on a log with a missing module and a missing
    header. *)
Lemma generator_idempotent_witness :
  let a := {| GeneratePatch.logs := "ci.log"; GeneratePatch.repo_root := ".";
              GeneratePatch.out := "fix.patch" |} in
  let fs : gmap string Os.node :=
    {["ci.log" := Os.File ("ModuleNotFoundError: No module named 'yaml'"
                           +:+ GeneratePatch.nl
                           +:+ "fatal error: zlib.h: No such file or directory")]} in
  let o1 := GeneratePatch.main None (λ _, None) a fs in
  let o2 := GeneratePatch.main None (λ _, None) a (GeneratePatch.files o1) in
  GeneratePatch.files o2 !! "fix.patch" = GeneratePatch.files o1 !! "fix.patch"
  ∧ GeneratePatch.exit_code o2 = GeneratePatch.exit_code o1
  ∧ GeneratePatch.stdout o2 = GeneratePatch.stdout o1.
Proof.
  intros a fs.
  apply (generator_idempotent None (λ _, None) a fs); by vm_compute.
Defined.

(** C6.  With a dependency list in place and modules missing, the modules
    added are the missing ones that are no stripped line of the list, in
    their order.  When there is none, nothing is written.  Otherwise one
    fragment is appended to the patch: an update of [requirements.txt] whose
    only hunk shows the last three lines of the list as context and adds
    exactly those modules. *)
Theorem requirements_update (out_path repo_root : string)
    (missing_modules : list string) (fs : gmap string Os.node) (text : string) :
  missing_modules ≠ [] →
  Os.read_text fs (Os.path_join repo_root "requirements.txt") = Some text →
  let old := Py.splitlines text in
  let add := GeneratePatch.added old missing_modules in
  (∀ m, m ∈ add ↔ m ∈ missing_modules ∧ ∀ l, l ∈ old → Py.strip l ≠ m)
  ∧ add `sublist_of` missing_modules
  ∧ GeneratePatch.write_requirements_patch out_path repo_root missing_modules fs
    = match add with
      | [] => Some (false, fs)
      | _ =>
          fs' ← Os.append_text fs out_path
                  (Py.join GeneratePatch.nl
                     (["--- a/requirements.txt"; "+++ b/requirements.txt";
                       "@@ -"
                       +:+ Difflib.format_range_unified (length old - 3) (length old)
                       +:+ " +"
                       +:+ Difflib.format_range_unified (length old - 3)
                             (length old + length add)
                       +:+ " @@"]
                      ++ map (String.append " ") (drop (length old - 3) old)
                      ++ map (String.append "+") add)
                   +:+ GeneratePatch.nl);
          Some (true, fs')
      end.
Proof.
  intros Hne Hread old add. split; [|split].
  - intros m. unfold add, GeneratePatch.added.
    rewrite list_elem_of_filter, list_elem_of_fmap. split.
    + intros [Hm ?]. split; [done|]. intros l ? ?. apply Hm. by exists l.
    + intros [? Hm]. split; [|done]. intros (l & -> & ?). by eapply Hm.
  - apply sublist_filter.
  - unfold GeneratePatch.write_requirements_patch.
    subst add. destruct missing_modules as [|m0 ms]; [done|]. cbv zeta.
    rewrite path_exists_read by (by rewrite Hread).
    rewrite Hread. cbn [mbind option_bind]. fold old.
    destruct (GeneratePatch.added old (m0 :: ms)) as [|x xs]; [done|].
    unfold GeneratePatch.make_update_file_diff.
    by rewrite unified_diff_append.
Qed.

(** The witness: a list that holds [foo], and [foo] and [bar] missing; the
    fragment adds the one line [bar]. *)
Lemma requirements_update_witness :
  GeneratePatch.write_requirements_patch "fix.patch" "." ["bar"; "foo"]
    {["./requirements.txt" := Os.File ("foo" +:+ GeneratePatch.nl)]}
  = (fs' ← Os.append_text
             {["./requirements.txt" := Os.File ("foo" +:+ GeneratePatch.nl)]}
             "fix.patch"
             (Py.join GeneratePatch.nl
                ["--- a/requirements.txt"; "+++ b/requirements.txt"; "@@ -1 +1,2 @@";
                 " foo"; "+bar"]
              +:+ GeneratePatch.nl);
     Some (true, fs')).
Proof.
  exact (proj2 (proj2 (requirements_update "fix.patch" "." ["bar"; "foo"]
                         {["./requirements.txt" := Os.File ("foo" +:+ GeneratePatch.nl)]}
                         ("foo" +:+ GeneratePatch.nl)
                         ltac:(discriminate) eq_refl))).
Defined.

(** C3, as the code has it.  The fragment for [requirements.txt], when one
    is written, updates the file if it exists under the repository root and
    creates it if it does not.  The fragments for [.fixbot_system_deps.txt]
    and [.fixbot_notice.txt] always create their file, whatever exists.  A
    writer appends its fragment to the output file; the one for
    [requirements.txt] raises instead when modules are missing and the path
    of the dependency list is a directory. *)
Theorem fragment_styles (logs out_path repo_root : string) (fs : gmap string Os.node) :
  let ml := GeneratePatch.missing_list logs in
  let hs := GeneratePatch.missing_headers logs in
  let req_path := Os.path_join repo_root "requirements.txt" in
  (GeneratePatch.write_requirements_patch out_path repo_root ml fs
   = (if bool_decide (ml ≠ [] ∧ fs !! req_path = Some Os.Dir) then None
      else Spec.emit fs out_path (Spec.requirements_fragment repo_root ml fs))
   ∧ ∀ f, Spec.requirements_fragment repo_root ml fs = Some f →
          if Os.path_exists fs req_path then Spec.update_style "requirements.txt" f
          else Spec.new_file_style "requirements.txt" f)
  ∧ (GeneratePatch.write_system_deps_patch out_path repo_root hs fs
     = Spec.emit fs out_path (Spec.system_deps_fragment hs)
     ∧ ∀ f, Spec.system_deps_fragment hs = Some f →
            Spec.new_file_style ".fixbot_system_deps.txt" f)
  ∧ (GeneratePatch.make_new_file_diff None ".fixbot_notice.txt" GeneratePatch.notice_lines
     = Spec.render Spec.notice_fragment
     ∧ Spec.new_file_style ".fixbot_notice.txt" Spec.notice_fragment).
Proof.
  intros ml hs req_path. split; [|split].
  - split; [apply write_requirements_patch_emit, missing_list_no_newline|].
    intros f. unfold Spec.requirements_fragment. fold req_path.
    destruct ml as [|m ms]; [done|]. cbv zeta.
    destruct (Os.path_exists fs req_path).
    + destruct (Os.read_text fs req_path) as [text|]; [|done].
      cbn [mbind option_bind].
      destruct (GeneratePatch.added _ _); [done|]. by intros [= <-].
    + intros [= <-]. apply new_file_fragment_style.
  - split; [apply write_system_deps_patch_emit, missing_headers_no_newline|].
    intros f. unfold Spec.system_deps_fragment.
    destruct hs; [done|]. intros [= <-]. apply new_file_fragment_style.
  - split; [apply notice_diff_render|apply new_file_fragment_style].
Qed.

(** The witness: a missing module with a dependency list in place gives an
    update of [requirements.txt]. *)
Lemma fragment_styles_witness :
  Spec.update_style "requirements.txt"
    (Spec.update_fragment "requirements.txt" ["flask"] ["yaml"]).
Proof.
  exact (proj2 (proj1 (fragment_styles "ModuleNotFoundError: No module named 'yaml'"
                         "fix.patch" "."
                         {["./requirements.txt"
                           := Os.File ("flask" +:+ GeneratePatch.nl)]}))
           (Spec.update_fragment "requirements.txt" ["flask"] ["yaml"]) eq_refl).
Defined.

(** C3 as the specification words it fails for the advisory file: with
    [.fixbot_system_deps.txt] under the repository root and a header
    missing, the patch still creates the file from [/dev/null]. *)
Lemma system_deps_new_file_over_existing :
  let fs : gmap string Os.node :=
    {["ci.log" := Os.File "fatal error: zlib.h: No such file or directory";
      "./.fixbot_system_deps.txt" := Os.File "openssl/ssl.h"]} in
  let f := Spec.new_file_fragment ".fixbot_system_deps.txt"
             ["The following headers were reported missing during CI/compile:";
              "zlib.h"] in
  Os.path_exists fs (Os.path_join "." ".fixbot_system_deps.txt") = true
  ∧ (∃ fs', GeneratePatch.heuristics_make_patch "ci.log" "." "fix.patch" fs
            = GeneratePatch.Returned fs'
            ∧ fs' !! "fix.patch" = Some (Os.File (Spec.render f)))
  ∧ Spec.new_file_style ".fixbot_system_deps.txt" f.
Proof.
  split; [by vm_compute|]. split; [|apply new_file_fragment_style].
  eexists. split; [by vm_compute|]. by vm_compute.
Qed.

(** * Further properties *)

(** ** Stripping *)

Section Stripping.

Lemma rstrip_by_String (f : ascii → bool) (c : ascii) (s : string) :
  Py.rstrip_by f (String c s)
  = match Py.rstrip_by f s with
    | EmptyString => if f c then EmptyString else String c EmptyString
    | r => String c r
    end.
Proof. reflexivity. Qed.

Lemma rstrip_by_idem (f : ascii → bool) (s : string) :
  Py.rstrip_by f (Py.rstrip_by f s) = Py.rstrip_by f s.
Proof.
  induction s as [|c s IH]; [done|]. rewrite rstrip_by_String.
  destruct (Py.rstrip_by f s) as [|c' r] eqn:Hr.
  - destruct (f c) eqn:Hc; [done|]. rewrite rstrip_by_String. cbn. by rewrite Hc.
  - rewrite rstrip_by_String. by rewrite IH.
Qed.

Lemma rstrip_by_cons (f : ascii → bool) (c : ascii) (s : string) :
  f c = false → ∃ t, Py.rstrip_by f (String c s) = String c t.
Proof.
  intros Hc. rewrite rstrip_by_String.
  destruct (Py.rstrip_by f s); rewrite ?Hc; eauto.
Qed.

Lemma lstrip_by_head (f : ascii → bool) (s : string) :
  Py.lstrip_by f s = "" ∨ ∃ c t, Py.lstrip_by f s = String c t ∧ f c = false.
Proof.
  induction s as [|c s IH]; [by left|]. cbn [Py.lstrip_by].
  destruct (f c) eqn:Hc; [done|]. right. eauto.
Qed.

(** What [strip] returns has no white space at either end. *)
Lemma strip_trimmed (s : string) : Shapes.trimmed (Py.strip s).
Proof.
  unfold Shapes.trimmed, Py.strip. split; [|apply rstrip_by_idem].
  destruct (lstrip_by_head Py.isspace s) as [->|(c & t & -> & Hc)]; [done|].
  destruct (rstrip_by_cons Py.isspace c t Hc) as [t' ->].
  cbn [Py.lstrip_by]. by rewrite Hc.
Qed.

Lemma rstrip_by_id (f : ascii → bool) (s : string) :
  Py.str_forallb (λ c, negb (f c)) s = true → Py.rstrip_by f s = s.
Proof.
  induction s as [|c s IH]; simpl; [done|].
  intros [Hc Hs]%andb_true_iff. rewrite (IH Hs).
  apply negb_true_iff in Hc. rewrite Hc. by destruct s.
Qed.

Lemma strip_id (s : string) :
  Py.str_forallb (λ c, negb (Py.isspace c)) s = true → Py.strip s = s.
Proof.
  intros Hs. unfold Py.strip.
  assert (Py.lstrip_by Py.isspace s = s) as ->; [|by apply rstrip_by_id].
  destruct s as [|c s]; [done|]. simpl in *.
  apply andb_true_iff in Hs as [Hc _]. apply negb_true_iff in Hc. by rewrite Hc.
Qed.

End Stripping.

(** ** Shapes of the detected names *)

Section Names.

Lemma dist_class_lower (c : ascii) :
  GeneratePatch.dist_class c = true → Shapes.lower_dist_class (Py.lower_char c) = true.
Proof. destruct c as [[] [] [] [] [] [] [] []]; vm_compute; done. Qed.

Lemma lower_dist_class_no_space (c : ascii) :
  Shapes.lower_dist_class c = true → negb (Py.isspace c) = true.
Proof. destruct c as [[] [] [] [] [] [] [] []]; vm_compute; done. Qed.

Lemma lower_nonempty (s : string) : s ≠ "" → Py.lower s ≠ "".
Proof. by destruct s. Qed.

Lemma missing_list_capture (logs m : string) :
  m ∈ GeneratePatch.missing_list logs →
  ∃ s1 j cls,
    m = Py.lower (Py.take_chars j s1)
    ∧ 1 ≤ j ≤ Re.run_length cls s1
    ∧ ∀ x, cls x = true → GeneratePatch.dist_class x = true.
Proof.
  intros Hm. apply sorted_spec in Hm. unfold GeneratePatch.missing in Hm.
  rewrite !add_all_union in Hm.
  rewrite !elem_of_union, !elem_of_list_to_set, !list_elem_of_fmap in Hm.
  destruct Hm as [[[[]%elem_of_empty|(c & -> & Hc)]|(c & -> & Hc)]|(c & -> & Hc)];
    apply findall_from_elem in Hc as (s' & n & Hc);
    apply match_here_group_plus in Hc as (s1 & j & _ & ? & ->); eauto;
    exists s1, j.
  - exists GeneratePatch.word_class. split_and!; try done; try lia.
    apply word_class_dist_class.
  - exists GeneratePatch.word_class. split_and!; try done; try lia.
    apply word_class_dist_class.
  - exists GeneratePatch.dist_class. split_and!; try done; lia.
Qed.

Lemma missing_list_no_space (logs m : string) :
  m ∈ GeneratePatch.missing_list logs →
  Py.str_forallb (λ c, negb (Py.isspace c)) m = true.
Proof.
  intros (s1 & j & cls & -> & Hj & Hcls)%missing_list_capture.
  unfold Py.lower. rewrite str_forallb_map.
  eapply str_forallb_impl; [|apply (forallb_take_run cls); lia].
  intros c Hc. apply lower_dist_class_no_space, dist_class_lower. auto.
Qed.

End Names.

(** X1.  Every module name the generator detects is non-empty and made of
    the characters a-z, 0-9, underscore, hyphen and dot: what goes into
    [requirements.txt] holds no white space, no upper-case letter and no
    version specifier. *)
Theorem missing_list_names (logs m : string) :
  m ∈ GeneratePatch.missing_list logs →
  m ≠ "" ∧ Py.str_forallb Shapes.lower_dist_class m = true.
Proof.
  intros (s1 & j & cls & -> & Hj & Hcls)%missing_list_capture. split.
  - apply lower_nonempty. by eapply take_chars_nonempty.
  - unfold Py.lower. rewrite str_forallb_map.
    eapply str_forallb_impl; [|apply (forallb_take_run cls); lia].
    intros c Hc. apply dist_class_lower. auto.
Qed.

Lemma missing_list_names_witness :
  "pyyaml" ≠ "" ∧ Py.str_forallb Shapes.lower_dist_class "pyyaml" = true.
Proof.
  apply (missing_list_names "No matching distribution found for PyYAML==6.0").
  vm_compute. by left.
Defined.

Section HeaderShape.

Lemma match_here_header_shape (s c : string) (n : nat) :
  Re.match_here GeneratePatch.missing_header_re s = Some (c, n) →
  ∃ p, c = p +:+ ".h" ∧ p ≠ "" ∧ Py.str_forallb GeneratePatch.header_class p = true.
Proof.
  unfold Re.match_here, GeneratePatch.missing_header_re. cbn [Re.match_items].
  destruct (Py.strip_prefix "fatal error: " s) as [s1|] eqn:Hs; [|done].
  apply strip_prefix_Some in Hs as ->.
  destruct (Re.try_lengths _ _) as [[[gs ge] len]|] eqn:Ht; [|done].
  apply try_lengths_Some in Ht as (j & Hj & Hk).
  destruct (Py.strip_prefix ".h" (Py.drop_chars j s1)) as [s2|] eqn:Hh; [|done].
  destruct (Py.strip_prefix ": No such file or directory" s2); [|done].
  injection Hk as <- <- <-. intros [= <- <-].
  change ("" +:+ s1) with s1. rewrite Nat.sub_0_r.
  pose proof (run_length_le GeneratePatch.header_class s1).
  rewrite take_chars_add by lia.
  apply strip_prefix_Some in Hh. rewrite Hh.
  change (Py.take_chars 2 (".h" +:+ s2)) with ".h".
  exists (Py.take_chars j s1). split; [done|]. split.
  - by eapply take_chars_nonempty.
  - apply forallb_take_run. lia.
Qed.

End HeaderShape.

(** X2.  Every header the generator lists is a non-empty path of letters,
    digits, underscore, hyphen and slash followed by [.h]; a header with
    another suffix, or with a dot inside its path, is never listed. *)
Theorem missing_headers_shape (logs h : string) :
  h ∈ GeneratePatch.missing_headers logs →
  ∃ p, h = p +:+ ".h" ∧ p ≠ ""
       ∧ Py.str_forallb GeneratePatch.header_class p = true.
Proof.
  intros Hh.
  destruct (headers_loop (Re.findall GeneratePatch.missing_header_re logs) []
              (NoDup_nil_2 : NoDup [])) as (_ & _ & Hel & _).
  apply Hel in Hh as [[]%elem_of_nil|Hh].
  apply findall_from_elem in Hh as (s' & n & Hm). by eapply match_here_header_shape.
Qed.

Lemma missing_headers_shape_witness :
  ∃ p, "openssl/ssl.h" = p +:+ ".h" ∧ p ≠ ""
       ∧ Py.str_forallb GeneratePatch.header_class p = true.
Proof.
  apply (missing_headers_shape
           "fatal error: openssl/ssl.h: No such file or directory").
  vm_compute. by left.
Defined.

(** ** The run of the generator *)

Section RunLemmas.

Lemma read_text_insert_ne (fs : gmap string Os.node) (p q : string) (n : Os.node) :
  p ≠ q → Os.read_text (<[p := n]> fs) q = Os.read_text fs q.
Proof. intros ?. unfold Os.read_text. by rewrite lookup_insert_ne. Qed.


Lemma added_nil (old missing_modules : list string) :
  (∀ m, m ∈ missing_modules → m ∈ map Py.strip old) →
  GeneratePatch.added old missing_modules = [].
Proof.
  unfold GeneratePatch.added.
  induction missing_modules as [|m ms IH]; intros H; [done|].
  rewrite filter_cons_False by (intros Hm; apply Hm, H; by left).
  apply IH. intros m' ?. apply H. by right.
Qed.

Lemma missing_list_strip (logs m : string) :
  m ∈ GeneratePatch.missing_list logs → Py.strip m = m.
Proof.
  intros Hm. apply strip_id. by eapply missing_list_no_space.
Qed.







End RunLemmas.

(** X3.  The generator changes no file but the one at the output path: the
    log, the dependency list and everything else under the repository root
    are left as they were, on the generative path, on the heuristic path and
    when the run fails. *)
Theorem main_touches_only_out (openai_key : option string)
    (completion : string → option string) (a : GeneratePatch.args)
    (fs : gmap string Os.node) (p : string) :
  p ≠ GeneratePatch.out a →
  GeneratePatch.files (GeneratePatch.main openai_key completion a fs) !! p = fs !! p.
Proof.
  intros Hp. unfold GeneratePatch.main.
  rewrite openai_patch_answer, heuristics_make_patch_cases.
  destruct (Spec.answer _ _ _) as [patch|]; cbn [mbind option_bind].
  - unfold Os.write_text.
    destruct (fs !! GeneratePatch.out a) as [[s|]|] eqn:Hout; cbn [mbind option_bind].
    + cbn. by rewrite lookup_insert_ne.
    + destruct (Os.read_text fs _); [|done].
      by rewrite bool_decide_eq_true_2.
    + cbn. by rewrite lookup_insert_ne.
  - destruct (Os.read_text fs _) as [logs|]; [|done].
    repeat case_bool_decide; cbn; [done| |].
    + by rewrite lookup_delete_ne.
    + by rewrite lookup_insert_ne, lookup_delete_ne.
Qed.

Lemma main_touches_only_out_witness :
  let a := {| GeneratePatch.logs := "ci.log"; GeneratePatch.repo_root := ".";
              GeneratePatch.out := "fix.patch" |} in
  let fs : gmap string Os.node :=
    {["ci.log" := Os.File "ModuleNotFoundError: No module named 'yaml'";
      "./requirements.txt" := Os.File "flask"]} in
  GeneratePatch.files (GeneratePatch.main None (λ _, None) a fs) !! "./requirements.txt"
  = fs !! "./requirements.txt".
Proof.
  intros a fs. apply (main_touches_only_out None (λ _, None) a fs). discriminate.
Defined.

(** X4.  When the log path holds no file that can be read, nothing or a
    directory, the generator fails with status 1, prints nothing and changes
    no file, whether or not [OPENAI_API_KEY] is set: the generative path
    swallows the failed [open] and the heuristic path then raises on the same
    [open]. *)
Theorem main_missing_log (openai_key : option string)
    (completion : string → option string) (a : GeneratePatch.args)
    (fs : gmap string Os.node) :
  Os.read_text fs (GeneratePatch.logs a) = None →
  GeneratePatch.main openai_key completion a fs
  = {| GeneratePatch.exit_code := 1; GeneratePatch.stdout := [];
       GeneratePatch.files := fs |}.
Proof.
  intros Hr. unfold GeneratePatch.main.
  rewrite openai_patch_answer, heuristics_make_patch_cases, Hr.
  unfold Spec.answer. by destruct (Py.truthy openai_key).
Qed.

Lemma main_missing_log_witness :
  GeneratePatch.main (Some "sk-key") (λ _, Some "a patch")
    {| GeneratePatch.logs := "ci.log"; GeneratePatch.repo_root := ".";
       GeneratePatch.out := "fix.patch" |}
    {["fix.patch" := Os.File "stale"]}
  = {| GeneratePatch.exit_code := 1; GeneratePatch.stdout := [];
       GeneratePatch.files := {["fix.patch" := Os.File "stale"]} |}.
Proof.
  apply (main_missing_log (Some "sk-key") (λ _, Some "a patch")). reflexivity.
Defined.

(** X5.  What the output file held before the run has no effect: when the
    log file can be read and is not the output file itself, and the output
    path is no directory, a run over a stale output file ends as a run
    without it does. *)
Theorem main_ignores_stale_output (openai_key : option string)
    (completion : string → option string) (a : GeneratePatch.args)
    (fs : gmap string Os.node) (stale : string) :
  GeneratePatch.out a ≠ GeneratePatch.logs a →
  is_Some (Os.read_text fs (GeneratePatch.logs a)) →
  fs !! GeneratePatch.out a ≠ Some Os.Dir →
  GeneratePatch.main openai_key completion a (<[GeneratePatch.out a := Os.File stale]> fs)
  = GeneratePatch.main openai_key completion a fs.
Proof.
  intros Hne [text Htext] Hdir.
  unfold GeneratePatch.main.
  rewrite !openai_patch_answer, !heuristics_make_patch_cases.
  rewrite read_text_insert_ne, Htext by done.
  destruct (Spec.answer _ _ _) as [p|]; cbn [mbind option_bind].
  - rewrite !write_text_Some by (done || by rewrite lookup_insert_eq).
    cbn [mbind option_bind]. by rewrite insert_insert_eq.
  - rewrite delete_insert_eq.
    rewrite (bool_decide_eq_false_2 (_ !! _ = Some Os.Dir))
      by (by rewrite lookup_insert_eq).
    by rewrite (bool_decide_eq_false_2 (fs !! _ = Some Os.Dir)) by done.
Qed.

Lemma main_ignores_stale_output_witness :
  let a := {| GeneratePatch.logs := "ci.log"; GeneratePatch.repo_root := ".";
              GeneratePatch.out := "fix.patch" |} in
  let fs : gmap string Os.node :=
    {["ci.log" := Os.File "fatal error: zlib.h: No such file or directory"]} in
  GeneratePatch.main None (λ _, None) a (<["fix.patch" := Os.File "stale"]> fs)
  = GeneratePatch.main None (λ _, None) a fs.
Proof.
  intros a fs.
  apply (main_ignores_stale_output None (λ _, None) a fs "stale");
    [discriminate|by eexists|discriminate].
Defined.



(** X7.  Applying the fragment settles the dependency list: once the file
    holds the lines it had followed by the modules that were added, or, for a
    new file, the modules alone, the same detection writes nothing more for
    it and reports so. *)
Theorem requirements_settled_after_patch (logs out_path repo_root text' : string)
    (old : list string) (fs' : gmap string Os.node) :
  Os.read_text fs' (Os.path_join repo_root "requirements.txt") = Some text' →
  Py.splitlines text'
  = old ++ GeneratePatch.added old (GeneratePatch.missing_list logs) →
  GeneratePatch.write_requirements_patch out_path repo_root
    (GeneratePatch.missing_list logs) fs'
  = Some (false, fs').
Proof.
  intros Hread Hlines. unfold GeneratePatch.write_requirements_patch.
  destruct (GeneratePatch.missing_list logs) as [|m0 ms] eqn:Hml; [done|].
  rewrite <-Hml in *. cbv zeta.
  rewrite path_exists_read by (by rewrite Hread).
  rewrite Hread. cbn [mbind option_bind]. rewrite added_nil; [done|].
  intros m Hm. rewrite Hlines, map_app, elem_of_app.
  destruct (decide (m ∈ map Py.strip old)) as [?|Hno]; [by left|right].
  apply list_elem_of_fmap. exists m. split; [symmetry; by eapply missing_list_strip|].
  unfold GeneratePatch.added. by apply list_elem_of_filter.
Qed.

Lemma requirements_settled_after_patch_witness :
  let fs' : gmap string Os.node :=
    {["./requirements.txt"
      := Os.File ("flask" +:+ GeneratePatch.nl +:+ "yaml" +:+ GeneratePatch.nl)]} in
  GeneratePatch.write_requirements_patch "fix.patch" "."
    (GeneratePatch.missing_list "ModuleNotFoundError: No module named 'yaml'") fs'
  = Some (false, fs').
Proof.
  intros fs'.
  apply (requirements_settled_after_patch
           "ModuleNotFoundError: No module named 'yaml'" "fix.patch" "."
           ("flask" +:+ GeneratePatch.nl +:+ "yaml" +:+ GeneratePatch.nl)
           ["flask"] fs');
    reflexivity.
Defined.

(** X8.  What the generative path writes is never empty and has no white
    space at either end, so it ends without a line feed; the run then exits
    with status 0 and the output file is exactly that text. *)
Theorem openai_patch_trimmed (openai_key : option string)
    (completion : string → option string) (a : GeneratePatch.args)
    (fs fs' : gmap string Os.node) (patch_text : string) :
  GeneratePatch.openai_patch openai_key completion a fs = Some (patch_text, fs') →
  patch_text ≠ "" ∧ Shapes.trimmed patch_text
  ∧ Py.truthy openai_key = true
  ∧ GeneratePatch.main openai_key completion a fs
    = {| GeneratePatch.exit_code := 0;
         GeneratePatch.stdout := ["Wrote patch from OpenAI to " +:+ GeneratePatch.out a];
         GeneratePatch.files := <[GeneratePatch.out a := Os.File patch_text]> fs |}.
Proof.
  intros Hp. unfold GeneratePatch.main. rewrite Hp.
  unfold GeneratePatch.openai_patch in Hp.
  destruct (Py.truthy openai_key); [|done].
  destruct (Os.read_text fs _) as [text|]; [|done].
  destruct (completion _) as [answer|]; [|done]. cbv zeta in Hp.
  destruct (Py.truthy (Some (Py.strip answer))) eqn:Ht; [|done].
  unfold Os.write_text in Hp.
  assert (patch_text = Py.strip answer
          ∧ fs' = <[GeneratePatch.out a := Os.File (Py.strip answer)]> fs) as [-> ->].
  { destruct (fs !! GeneratePatch.out a) as [[]|]; cbn in Hp; by simplify_eq. }
  split_and!; try done.
  - apply truthy_Some in Ht as (s & [= <-] & ?). done.
  - apply strip_trimmed.
Qed.

Lemma openai_patch_trimmed_witness :
  "--- a/x" ≠ "" ∧ Shapes.trimmed "--- a/x".
Proof.
  pose proof (openai_patch_trimmed (Some "sk-key")
                (λ _, Some (GeneratePatch.nl +:+ "--- a/x" +:+ GeneratePatch.nl))
                {| GeneratePatch.logs := "ci.log"; GeneratePatch.repo_root := ".";
                   GeneratePatch.out := "fix.patch" |}
                {["ci.log" := Os.File "boom"]} _ "--- a/x" eq_refl) as (? & ? & _).
  by split.
Defined.

Section NoChange.

Lemma opcodes_same (a : list string) :
  Difflib.get_opcodes a a
  = if decide (length a = 0) then [] else [(Difflib.Equal, 0, length a, 0, length a)].
Proof.
  unfold Difflib.get_opcodes.
  pose proof (matching_blocks_append a []) as Hb.
  rewrite app_nil_r in Hb. rewrite Hb. clear Hb.
  case_decide as Hla; cbn [app foldl snd].
  - rewrite Hla. repeat case_decide; try lia; done.
  - rewrite !Nat.add_0_l, !Nat.add_0_r.
    repeat case_decide; try lia; done.
Qed.

Lemma grouped_opcodes_same (a : list string) :
  Difflib.get_grouped_opcodes a a 3 = [].
Proof.
  unfold Difflib.get_grouped_opcodes. rewrite opcodes_same.
  case_decide as Hla; cbn [Difflib.fix_first Difflib.fix_last foldl].
  - case_decide as Hd; [destruct Hd; lia|done].
  - case_decide as Hd; [destruct Hd; lia|done].
Qed.

Lemma unified_diff_same (a : list string) (fromfile tofile : string) :
  Difflib.unified_diff a a fromfile tofile = [].
Proof. unfold Difflib.unified_diff. by rewrite grouped_opcodes_same. Qed.

End NoChange.

(** X9.  [make_update_file_diff] on two equal lists of lines gives no
    header and no hunk, only a line feed: the test for an empty [added] in
    [write_requirements_patch] is what keeps a blank line out of the
    patch. *)
Theorem make_update_file_diff_same (path relpath : string) (lines : list string) :
  GeneratePatch.make_update_file_diff path relpath lines lines = GeneratePatch.nl.
Proof. unfold GeneratePatch.make_update_file_diff. by rewrite unified_diff_same. Qed.

Section Flags.




End Flags.



Section RepoRoot.

Lemma endswith_char_app (s : string) (c : ascii) :
  Py.endswith_char (s +:+ String c "") c = true.
Proof.
  induction s as [|a s IH]; [by apply bool_decide_eq_true|].
  rewrite app_String. destruct s as [|b s]; [by apply bool_decide_eq_true|].
  rewrite app_String in *. exact IH.
Qed.

Lemma path_join_trailing_slash (root rel : string) :
  root ≠ "" → Py.endswith_char root "/" = false →
  Os.path_join (root +:+ "/") rel = Os.path_join root rel.
Proof.
  intros Hne Hend. unfold Os.path_join.
  destruct (Py.startswith rel "/"); [done|].
  rewrite (endswith_char_app root "/"), orb_true_r, Hend.
  rewrite bool_decide_eq_false_2 by done. cbn [orb].
  by rewrite app_assoc_str.
Qed.

End RepoRoot.

(** X11.  A slash added at the end of a repository root that is not empty
    and does not end in a slash yet changes nothing: the heuristic run reads
    the same dependency list and ends the same way, with the same patch. *)
Theorem repo_root_trailing_slash (logs_path repo_root out_path : string)
    (fs : gmap string Os.node) :
  repo_root ≠ "" → Py.endswith_char repo_root "/" = false →
  GeneratePatch.heuristics_make_patch logs_path (repo_root +:+ "/") out_path fs
  = GeneratePatch.heuristics_make_patch logs_path repo_root out_path fs.
Proof.
  intros Hne Hend.
  unfold GeneratePatch.heuristics_make_patch, GeneratePatch.write_requirements_patch,
    GeneratePatch.write_system_deps_patch.
  by rewrite !path_join_trailing_slash.
Qed.

Lemma repo_root_trailing_slash_witness :
  let fs : gmap string Os.node :=
    {["ci.log" := Os.File "ModuleNotFoundError: No module named 'yaml'";
      "repo/requirements.txt" := Os.File "flask"]} in
  GeneratePatch.heuristics_make_patch "ci.log" ("repo" +:+ "/") "fix.patch" fs
  = GeneratePatch.heuristics_make_patch "ci.log" "repo" "fix.patch" fs.
Proof.
  intros fs. apply (repo_root_trailing_slash "ci.log" "repo" "fix.patch" fs);
    [discriminate|reflexivity].
Defined.



(** ** The summary of the log fetcher *)

Section FetchLemmas.

Lemma info_of_failed (what : string) (r : Http.response) :
  Http.status_code r ≠ 200 →
  FetchLogs.info_of what r
  = Some (Json.Obj [("error", Json.Str (Http.text r))], Shapes.warning what r).
Proof.
  intros H. unfold FetchLogs.info_of, Shapes.warning.
  by rewrite bool_decide_eq_false_2.
Qed.

Lemma info_of_ok (what : string) (r : Http.response) (v : Json.value) :
  Http.status_code r = 200 → Http.json r = Some v →
  FetchLogs.info_of what r = Some (v, Shapes.warning what r).
Proof.
  intros H Hv. unfold FetchLogs.info_of, Shapes.warning.
  rewrite bool_decide_eq_true_2 by done. by rewrite Hv.
Qed.

Lemma mapM_project_map (l : list Json.value) :
  forallb Json.is_dict l = true →
  mapM (FetchLogs.project FetchLogs.job_keys) l = Some (map Shapes.job_entry l).
Proof.
  induction l as [|v l IH]; [done|]. cbn [forallb]. intros [Hv Hl]%andb_true_iff.
  change (mapM ?f (v :: l)) with (y ← f v; k ← mapM f l; mret (y :: k)).
  rewrite (IH Hl). by destruct v.
Qed.

(** The run of the fetcher once the credential and the two pieces of
    information are known. *)
Lemma fetch_main_written (a : FetchLogs.args) (environ : gmap string string)
    (http : Http.request → Http.response) (t : string)
    (run_info jobs_info run : Json.value) (warn1 warn2 : list string)
    (js : list Json.value) :
  Spec.first_non_empty
    [FetchLogs.token_arg a; environ !! "GH_TOKEN"; environ !! "GITHUB_TOKEN"] = Some t →
  FetchLogs.info_of "run info" (http (FetchLogs.get_request (FetchLogs.run_url a) t))
  = Some (run_info, warn1) →
  FetchLogs.info_of "jobs" (http (FetchLogs.get_request (FetchLogs.jobs_url a) t))
  = Some (jobs_info, warn2) →
  FetchLogs.project FetchLogs.run_keys run_info = Some run →
  FetchLogs.jobs_summary jobs_info = Some js →
  FetchLogs.main a environ http
  = {| FetchLogs.exit_code := 0;
       FetchLogs.stderr := warn1 ++ warn2;
       FetchLogs.requests := [FetchLogs.get_request (FetchLogs.run_url a) t;
                              FetchLogs.get_request (FetchLogs.jobs_url a) t];
       FetchLogs.written :=
         Some (FetchLogs.out a,
               Json.Obj [("run", run); ("jobs_summary", Json.Arr js);
                         ("raw_run", run_info); ("raw_jobs", jobs_info)]) |}.
Proof.
  intros Ht H1 H2 Hrun Hjs.
  pose proof (or_chain_first_non_empty (FetchLogs.token_arg a)
                (environ !! "GH_TOKEN") (environ !! "GITHUB_TOKEN")) as H.
  rewrite Ht in H. destruct H as [Htok Hne].
  unfold FetchLogs.main. unfold FetchLogs.token. rewrite Htok.
  assert (Py.truthy (Some t) = true) as -> by (apply truthy_Some; eauto).
  cbn [negb default from_option id]. cbv zeta.
  by rewrite H1, H2, Hrun, Hjs.
Qed.


Lemma info_of_jobs_summary (r : Http.response) :
  (Http.status_code r = 200 → Spec.jobs_body_ok r = true) →
  ∃ jobs_info js,
    FetchLogs.info_of "jobs" r = Some (jobs_info, Shapes.warning "jobs" r)
    ∧ FetchLogs.jobs_summary jobs_info = Some js.
Proof.
  intros Hok. destruct (decide (Http.status_code r = 200)) as [H|H].
  - specialize (Hok H). destruct (Http.json r) as [v|] eqn:Hv.
    + destruct (proj2 (jobs_summary_is_Some r v Hv) Hok) as [js Hjs].
      exists v, js. split; [by apply info_of_ok|done].
    + unfold Spec.jobs_body_ok in Hok. by rewrite Hv in Hok.
  - eexists _, []. split; [by apply info_of_failed|done].
Qed.

Lemma info_of_run_project (r : Http.response) :
  (Http.status_code r = 200 → Spec.run_body_ok r = true) →
  ∃ run_info run,
    FetchLogs.info_of "run info" r = Some (run_info, Shapes.warning "run info" r)
    ∧ FetchLogs.project FetchLogs.run_keys run_info = Some run.
Proof.
  intros Hok. destruct (decide (Http.status_code r = 200)) as [H|H].
  - specialize (Hok H). unfold Spec.run_body_ok in Hok.
    destruct (Http.json r) as [[| | | | |kvs]|] eqn:Hv; try done.
    eexists _, _. split; [by apply info_of_ok|apply project_obj].
  - eexists _, _. split; [by apply info_of_failed|apply project_obj].
Qed.

End FetchLemmas.



(** X14.  When the run request returns 200 with a JSON object and the jobs
    response can be read (a status other than 200, or a body the fetcher can
    summarise), the body of the run is kept whole under [raw_run], and [run]
    holds exactly the fields [id], [head_sha], [status], [conclusion] and
    [event], in this order, each with the value of the body or [None] when
    the body has no such key. *)
Theorem fetch_run_projection (a : FetchLogs.args) (environ : gmap string string)
    (http : Http.request → Http.response) (t : string)
    (kvs : list (string * Json.value)) :
  let r1 := http (FetchLogs.get_request (FetchLogs.run_url a) t) in
  let r2 := http (FetchLogs.get_request (FetchLogs.jobs_url a) t) in
  let o := FetchLogs.main a environ http in
  Spec.first_non_empty
    [FetchLogs.token_arg a; environ !! "GH_TOKEN"; environ !! "GITHUB_TOKEN"] = Some t →
  Http.status_code r1 = 200 →
  Http.json r1 = Some (Json.Obj kvs) →
  (Http.status_code r2 = 200 → Spec.jobs_body_ok r2 = true) →
  ∃ js raw_jobs,
    FetchLogs.written o
    = Some (FetchLogs.out a,
            Json.Obj [("run",
                       Json.Obj [("id", default Json.Null (Json.lookup_key kvs "id"));
                                 ("head_sha",
                                  default Json.Null (Json.lookup_key kvs "head_sha"));
                                 ("status",
                                  default Json.Null (Json.lookup_key kvs "status"));
                                 ("conclusion",
                                  default Json.Null (Json.lookup_key kvs "conclusion"));
                                 ("event",
                                  default Json.Null (Json.lookup_key kvs "event"))]);
                      ("jobs_summary", Json.Arr js);
                      ("raw_run", Json.Obj kvs);
                      ("raw_jobs", raw_jobs)]).
Proof.
  intros r1 r2 o Ht H1 Hv H2. subst o.
  destruct (info_of_jobs_summary r2 H2) as (jobs_info & js & Hj & Hjs).
  rewrite (fetch_main_written a environ http t _ _ _ _ _ _ Ht
             (info_of_ok _ r1 _ H1 Hv) Hj (project_obj FetchLogs.run_keys kvs) Hjs).
  by exists js, jobs_info.
Qed.

Lemma fetch_run_projection_witness :
  let a := {| FetchLogs.repo := "o/r"; FetchLogs.run_id := "7";
              FetchLogs.out := "summary.json"; FetchLogs.token_arg := Some "t" |} in
  let body := [("id", Json.Num 7); ("status", Json.Str "completed");
               ("name", Json.Str "CI")] in
  let http := λ _ : Http.request,
    {| Http.status_code := 200; Http.text := "{}"; Http.json := Some (Json.Obj body) |} in
  ∃ js raw_jobs,
    FetchLogs.written (FetchLogs.main a ∅ http)
    = Some ("summary.json",
            Json.Obj [("run",
                       Json.Obj [("id", Json.Num 7); ("head_sha", Json.Null);
                                 ("status", Json.Str "completed");
                                 ("conclusion", Json.Null); ("event", Json.Null)]);
                      ("jobs_summary", Json.Arr js);
                      ("raw_run", Json.Obj body);
                      ("raw_jobs", raw_jobs)]).
Proof.
  intros a body http.
  apply (fetch_run_projection a ∅ http "t" body); reflexivity.
Defined.

(** X15.  When the run response can be read (a status other than 200, or
    a JSON object) and the jobs request returns 200 with an object whose
    [jobs] is a list of objects, [jobs_summary] has one entry for each job of
    the response, in the order of the response, each with exactly the fields
    [id], [name], [status], [conclusion] and [html_url]; the response itself
    is kept whole under [raw_jobs]. *)
Theorem fetch_jobs_in_order (a : FetchLogs.args) (environ : gmap string string)
    (http : Http.request → Http.response) (t : string)
    (kvs : list (string * Json.value)) (jobs : list Json.value) :
  let r1 := http (FetchLogs.get_request (FetchLogs.run_url a) t) in
  let r2 := http (FetchLogs.get_request (FetchLogs.jobs_url a) t) in
  let o := FetchLogs.main a environ http in
  Spec.first_non_empty
    [FetchLogs.token_arg a; environ !! "GH_TOKEN"; environ !! "GITHUB_TOKEN"] = Some t →
  (Http.status_code r1 = 200 → Spec.run_body_ok r1 = true) →
  Http.status_code r2 = 200 →
  Http.json r2 = Some (Json.Obj kvs) →
  Json.lookup_key kvs "jobs" = Some (Json.Arr jobs) →
  forallb Json.is_dict jobs = true →
  ∃ run raw_run,
    FetchLogs.written o
    = Some (FetchLogs.out a,
            Json.Obj [("run", run);
                      ("jobs_summary", Json.Arr (map Shapes.job_entry jobs));
                      ("raw_run", raw_run);
                      ("raw_jobs", Json.Obj kvs)]).
Proof.
  intros r1 r2 o Ht H1 H2 Hv Hjobs Hdict. subst o.
  destruct (info_of_run_project r1 H1) as (run_info & run & Hr & Hrun).
  assert (FetchLogs.jobs_summary (Json.Obj kvs) = Some (map Shapes.job_entry jobs))
    as Hjs.
  { unfold FetchLogs.jobs_summary. rewrite Hjobs. cbn [Json.iterate mbind option_bind].
    by apply mapM_project_map. }
  rewrite (fetch_main_written a environ http t _ _ _ _ _ _ Ht Hr
             (info_of_ok _ r2 _ H2 Hv) Hrun Hjs).
  by exists run, run_info.
Qed.

Lemma fetch_jobs_in_order_witness :
  let a := {| FetchLogs.repo := "o/r"; FetchLogs.run_id := "7";
              FetchLogs.out := "summary.json"; FetchLogs.token_arg := Some "t" |} in
  let jobs := [Json.Obj [("id", Json.Num 1); ("name", Json.Str "build")];
               Json.Obj [("id", Json.Num 2); ("name", Json.Str "test")]] in
  let body := [("total_count", Json.Num 2); ("jobs", Json.Arr jobs)] in
  let http := λ _ : Http.request,
    {| Http.status_code := 200; Http.text := "{}"; Http.json := Some (Json.Obj body) |} in
  ∃ run raw_run,
    FetchLogs.written (FetchLogs.main a ∅ http)
    = Some ("summary.json",
            Json.Obj [("run", run);
                      ("jobs_summary", Json.Arr (map Shapes.job_entry jobs));
                      ("raw_run", raw_run);
                      ("raw_jobs", Json.Obj body)]).
Proof.
  intros a jobs body http.
  apply (fetch_jobs_in_order a ∅ http "t" body jobs); reflexivity.
Defined.



(** X17.  When the summary is written, the error stream holds one warning
    for each request that did not return 200, with its status, the one for
    the run before the one for the jobs, and nothing else. *)
Theorem fetch_warnings (a : FetchLogs.args) (environ : gmap string string)
    (http : Http.request → Http.response) (t : string) :
  let r1 := http (FetchLogs.get_request (FetchLogs.run_url a) t) in
  let r2 := http (FetchLogs.get_request (FetchLogs.jobs_url a) t) in
  let o := FetchLogs.main a environ http in
  Spec.first_non_empty
    [FetchLogs.token_arg a; environ !! "GH_TOKEN"; environ !! "GITHUB_TOKEN"] = Some t →
  (Http.status_code r1 = 200 → Spec.run_body_ok r1 = true) →
  (Http.status_code r2 = 200 → Spec.jobs_body_ok r2 = true) →
  FetchLogs.stderr o = Shapes.warning "run info" r1 ++ Shapes.warning "jobs" r2
  ∧ FetchLogs.exit_code o = 0.
Proof.
  intros r1 r2 o Ht H1 H2. subst o.
  destruct (info_of_run_project r1 H1) as (run_info & run & Hr & Hrun).
  destruct (info_of_jobs_summary r2 H2) as (jobs_info & js & Hj & Hjs).
  by rewrite (fetch_main_written a environ http t _ _ _ _ _ _ Ht Hr Hj Hrun Hjs).
Qed.

Lemma fetch_warnings_witness :
  let a := {| FetchLogs.repo := "o/r"; FetchLogs.run_id := "7";
              FetchLogs.out := "summary.json"; FetchLogs.token_arg := Some "t" |} in
  let http := λ q : Http.request,
    if bool_decide (Http.url q = FetchLogs.run_url a)
    then {| Http.status_code := 200; Http.text := "{}"; Http.json := Some (Json.Obj []) |}
    else {| Http.status_code := 503; Http.text := "busy"; Http.json := None |} in
  FetchLogs.stderr (FetchLogs.main a ∅ http) = ["Warning: failed to fetch jobs: 503"]
  ∧ FetchLogs.exit_code (FetchLogs.main a ∅ http) = 0.
Proof.
  intros a http.
  apply (fetch_warnings a ∅ http "t"); [reflexivity|reflexivity|discriminate].
Defined.

(** X18.  The fetcher sends the run request first and the jobs request
    second, with the same headers, whatever the first one returns; only a run
    response of status 200 whose body is no JSON ends it before the second
    request. *)
Theorem fetch_requests (a : FetchLogs.args) (environ : gmap string string)
    (http : Http.request → Http.response) (t : string) :
  let req1 := FetchLogs.get_request (FetchLogs.run_url a) t in
  let req2 := FetchLogs.get_request (FetchLogs.jobs_url a) t in
  Spec.first_non_empty
    [FetchLogs.token_arg a; environ !! "GH_TOKEN"; environ !! "GITHUB_TOKEN"] = Some t →
  FetchLogs.requests (FetchLogs.main a environ http)
  = match bool_decide (Http.status_code (http req1) = 200), Http.json (http req1) with
    | true, None => [req1]
    | _, _ => [req1; req2]
    end.
Proof.
  intros req1 req2 Ht.
  pose proof (or_chain_first_non_empty (FetchLogs.token_arg a)
                (environ !! "GH_TOKEN") (environ !! "GITHUB_TOKEN")) as H.
  rewrite Ht in H. destruct H as [Htok Hne].
  unfold FetchLogs.main. unfold FetchLogs.token. rewrite Htok.
  assert (Py.truthy (Some t) = true) as -> by (apply truthy_Some; eauto).
  cbn [negb default from_option id]. cbv zeta. fold req1 req2.
  unfold FetchLogs.info_of at 1.
  destruct (bool_decide (Http.status_code (http req1) = 200)); cbn [negb].
  - destruct (Http.json (http req1)) as [v|]; cbn [fmap option_fmap option_map]; [|done].
    by repeat case_match.
  - by repeat case_match.
Qed.

Lemma fetch_requests_witness :
  let a := {| FetchLogs.repo := "o/r"; FetchLogs.run_id := "7";
              FetchLogs.out := "summary.json"; FetchLogs.token_arg := Some "t" |} in
  let http := λ _ : Http.request,
    {| Http.status_code := 200; Http.text := "<html>"; Http.json := None |} in
  FetchLogs.requests (FetchLogs.main a ∅ http)
  = [FetchLogs.get_request (FetchLogs.run_url a) "t"].
Proof.
  intros a http. apply (fetch_requests a ∅ http "t"). reflexivity.
Defined.
